(** * job_and_result_submission.ts: the example script that submits a job
      and its result to a Tangle node

    The script is one asynchronous procedure: it talks to a node through the
    chain client library and derives a few keys and signatures locally.  It is
    embedded here as an interaction tree over the calls it makes to its
    collaborators (node, console, process); the local computations (byte
    buffers, hex strings, the JavaScript array holding a signature) are plain
    functions.  The third-party libraries the script imports are interfaces:
    their operations are the members of a class, and what their
    documentation promises of them is a hypothesis of the theorems that
    need it.  Line numbers are those of the source file. *)

From Stdlib Require Import ZArith NArith List String Ascii Bool Lia.
From Stdlib.Strings Require Import Byte.
From ITree Require Import ITree Eq.Shallow.
Import ListNotations.
Import ITreeNotations.
Local Open Scope string_scope.
Local Open Scope Z_scope.
Local Open Scope itree_scope.

Set Implicit Arguments.

(** ** Byte buffers and hex strings *)

(** [Uint8Array] and [Buffer] values. *)
Definition Uint8Array := list byte.

Module Hex.

(** Value of one hexadecimal digit, either case. *)
Definition digit (c : ascii) : option N :=
  let n := N_of_ascii c in
  if ((48 <=? n) && (n <=? 57))%N then Some (n - 48)%N
  else if ((97 <=? n) && (n <=? 102))%N then Some (n - 87)%N
  else if ((65 <=? n) && (n <=? 70))%N then Some (n - 55)%N
  else None.

(** Lower-case digit of a value below 16. *)
Definition of_nibble (n : N) : ascii :=
  if (n <? 10)%N then ascii_of_N (48 + n) else ascii_of_N (87 + n).

Definition byte_of_N (n : N) : byte :=
  match Byte.of_N (n mod 256) with
  | Some b => b
  | None => x00
  end.

(** [Buffer.from(s, "hex")]: two digits a byte, decoding stops at the first
    pair that is not hexadecimal (and drops a trailing single digit). *)
Fixpoint decode (s : string) : Uint8Array :=
  match s with
  | String a (String b rest) =>
      match digit a, digit b with
      | Some h, Some l => byte_of_N (16 * h + l) :: decode rest
      | _, _ => []
      end
  | _ => []
  end.

Fixpoint digits (bs : Uint8Array) : string :=
  match bs with
  | [] => EmptyString
  | b :: rest =>
      let n := Byte.to_N b in
      String (of_nibble (n / 16)) (String (of_nibble (n mod 16)) (digits rest))
  end.

(** A lower-case hexadecimal digit. *)
Definition lower (c : ascii) : bool :=
  let n := N_of_ascii c in
  ((48 <=? n) && (n <=? 57) || (97 <=? n) && (n <=? 102))%N.

(** A string of lower-case digits, two a byte. *)
Fixpoint canonical (s : string) : bool :=
  match s with
  | EmptyString => true
  | String a (String b rest) => lower a && lower b && canonical rest
  | String _ EmptyString => false
  end.

End Hex.

(** [Buffer.from(string, "hex")]. *)
Definition Buffer_from_hex (s : string) : Uint8Array := Hex.decode s.

(** [u8aToHex(value)] of @polkadot/util with its defaults: the prefix ["0x"]
    and two lower-case digits a byte. *)
Definition u8aToHex (value : Uint8Array) : string := "0x" ++ Hex.digits value.

(** ** JavaScript arrays of numbers *)

(** An element slot: [Some n] holds the number [n], [None] is a hole, which
    reads as [undefined]. *)
Definition JsArray := list (option Z).

(** [Array.from(buffer)]: one number per byte. *)
Definition Array_from (b : Uint8Array) : JsArray :=
  map (fun x => Some (Z.of_N (Byte.to_N x))) b.

(** [a[i] = v]: overwrites inside the array, and past its end extends it,
    leaving holes below [i]. *)
Fixpoint array_set (a : JsArray) (i : nat) (v : Z) : JsArray :=
  match i, a with
  | O, [] => [Some v]
  | O, _ :: rest => Some v :: rest
  | S i', [] => None :: array_set [] i' v
  | S i', x :: rest => x :: array_set rest i' v
  end.

(** [ToUint8]: a number modulo 256; [undefined] converts to [NaN], then 0. *)
Definition ToUint8 (x : option Z) : byte :=
  match x with
  | Some n => Hex.byte_of_N (Z.to_N (n mod 256))
  | None => x00
  end.

(** [Uint8Array.from(array)]. *)
Definition Uint8Array_from (a : JsArray) : Uint8Array := map ToUint8 a.

(** [Buffer.from(bytes)] and [new Uint8Array(buffer)] copy their argument. *)
Definition Buffer_from (b : Uint8Array) : Uint8Array := b.
Definition new_Uint8Array (b : Uint8Array) : Uint8Array := b.

(** ** Values exchanged with the chain *)

Definition Address := string.
Definition JobId := Z.
Definition Hash := Uint8Array.

Variant ThresholdSignatureRoleType := DfnsCGGMP21Secp256k1.
Variant RoleType := Tss (t : ThresholdSignatureRoleType).
Variant DigitalSignatureScheme := Ecdsa.

Record ProfileRecord := { role : RoleType }.
Record SharedProfile := { records : list ProfileRecord; amount : string }.
Variant Profile := Shared (p : SharedProfile).

Module DkgtssPhaseOne.
Record t := {
  participants : list Address;
  threshold : Z;
  permittedCaller : option Address;
  roleType : ThresholdSignatureRoleType }.
End DkgtssPhaseOne.

Variant JobType := DkgtssPhaseOne (j : DkgtssPhaseOne.t).
Record JobSubmission := { expiry : Z; ttl : Z; jobType : JobType }.

Module DKGPhaseOne.
Record t := {
  key : string;
  signatures : list string;
  threshold : Z;
  signatureScheme : DigitalSignatureScheme }.
End DKGPhaseOne.

Variant JobResult := DKGPhaseOne (r : DKGPhaseOne.t).

(** The three calls of [api.tx] the script builds. *)
Variant Call :=
| roles_createProfile (profile : Profile) (maxActiveServices : Z)
| jobs_submitJob (job : JobSubmission)
| jobs_submitJobResult (roleType : RoleType) (jobId : JobId) (result : JobResult).

(** What a status callback receives. *)
Variant ExtrinsicStatus :=
| Future | Ready | Broadcast
| InBlock (h : Hash) | Retracted (h : Hash) | FinalityTimeout (h : Hash)
| Finalized (h : Hash) | Usurped (h : Hash) | Dropped | Invalid.

Definition isInBlock (s : ExtrinsicStatus) : bool :=
  match s with InBlock _ => true | _ => false end.

(** [status.asInBlock.toHex()], read only where [isInBlock] holds. *)
Definition asInBlock_toHex (s : ExtrinsicStatus) : string :=
  match s with InBlock h => u8aToHex h | _ => EmptyString end.

Record EventRecord := { section : string; method : string; data : string }.

Record SubmittableResult := {
  events : option (list EventRecord);
  status : ExtrinsicStatus }.

Definition Error := string.

(** ** The libraries the script imports *)

(** [@polkadot/keyring]: a pair is derived from a key type and a secret URI. *)
Class KeyringAPI := {
  KeyringPair : Type;
  Keyring_addFromUri : string -> string -> KeyringPair;
  address : KeyringPair -> Address }.

(** The options of [fromPrivateKey]; only [compressed] is ever given. *)
Record ECPairOptions := { compressed : option bool }.

(** [ecpair] over [tiny-secp256k1]: the value of [ECPairFactory(tinysecp)]
    (line 23). *)
Class ECPairAPI := {
  ECPairInterface : Type;
  fromPrivateKey : Uint8Array -> option ECPairOptions -> ECPairInterface;
  publicKey : ECPairInterface -> Uint8Array;
  sign : ECPairInterface -> Uint8Array -> bool -> Uint8Array }.

(** [keccak256AsU8a] of [@polkadot/util-crypto]. *)
Class Keccak := keccak256AsU8a : Uint8Array -> Uint8Array.

(** The order of the secp256k1 group. *)
Definition secp256k1_n : Z :=
  0xFFFFFFFFFFFFFFFFFFFFFFFFFFFFFFFEBAAEDCE6AF48A03BBFD25E8CD0364141.

(** Big-endian value of a buffer. *)
Definition be_value (b : Uint8Array) : Z :=
  fold_left (fun acc x => 256 * acc + Z.of_N (Byte.to_N x)) b 0.

(** A valid private key: 32 bytes whose value lies in [[1, n)]. *)
Definition isPrivate (d : Uint8Array) : bool :=
  (List.length d =? 32)%nat && (0 <? be_value d) && (be_value d <? secp256k1_n).

(** How an awaited promise ends. *)
Variant Promise (X : Type) :=
| Fulfilled (x : X)
| RejectedWith (e : Error)
| NeverSettles.
Arguments RejectedWith {X} e.
Arguments NeverSettles {X}.

(** How the flow of the script ends. *)
Variant Outcome :=
| Exited (code : Z)
| Unhandled (e : Error)
| Suspended.

Section Script.

Context {keyring : KeyringAPI} {ECPair : ECPairAPI} {keccak : Keccak}.

(** A [SubmittableExtrinsic] is an object: the script holds a reference. *)
Definition Submittable := nat.

(** ** The calls the script makes to its collaborators

    An awaited promise answers [inl e] when it rejects with [e]. *)
Variant scriptE : Type -> Type :=
| ApiPromise_create (endpoint : string) : scriptE (Error + unit)
| api_isReady : scriptE (Error + unit)
| api_query_jobs_nextJobId : scriptE (Error + JobId)
| api_tx (c : Call) : scriptE Submittable
| signAndSend (tx : Submittable) (account : KeyringPair) : scriptE (Error + unit)
| statusCallback : scriptE SubmittableResult
| unsub : scriptE unit
| console_log (args : list string) : scriptE unit
| console_assert (cond : bool) (message : string) : scriptE unit
| process_exit (code : Z) : scriptE void
| unhandledRejection (e : Error) : scriptE void.

(** [await p], with no [try] around it. *)
Definition await {X} (p : scriptE (Error + X)) : itree scriptE X :=
  r <- ITree.trigger p;;
  match r with
  | inr x => Ret x
  | inl e => z <- ITree.trigger (unhandledRejection e);; match z : void with end
  end.

Fixpoint forEach {A} (l : list A) (f : A -> itree scriptE unit) : itree scriptE unit :=
  match l with
  | [] => Ret tt
  | a :: rest => f a;; forEach rest f
  end.

(** The destructuring default [events = []]. *)
Definition events_or_empty (r : SubmittableResult) : list EventRecord :=
  match events r with Some l => l | None => [] end.

(** The template literal printed for one event; it starts with a tab. *)
Definition event_line (ev : EventRecord) : string :=
  String "009" (section ev ++ "." ++ method ev ++ ":: " ++ data ev).

(** The status callback handed to [signAndSend] (lines 77-90, and its three
    copies, which differ in the label they print); [inr tt] is
    [resolve(void 0)], [inl tt] leaves the promise pending. *)
Definition callback (label : string) (r : SubmittableResult) : itree scriptE (unit + unit) :=
  if isInBlock (status r) then
    ITree.trigger (console_log [label ++ " Included at block hash"; asInBlock_toHex (status r)]);;
    ITree.trigger (console_log [label ++ " Events:"]);;
    forEach (events_or_empty r) (fun ev => ITree.trigger (console_log [event_line ev]));;
    ITree.trigger unsub;;
    Ret (inr tt)
  else Ret (inl tt).

(** The promise around a subscription: the node runs the callback on every
    notification, until one run resolves the promise. *)
Definition wait_for_inclusion (label : string) : itree scriptE unit :=
  ITree.iter (fun _ : unit => r <- ITree.trigger statusCallback;; callback label r) tt.

(** [await new Promise(async (resolve) => { const unsub = await
    tx.signAndSend(account, callback) })] (lines 76-91, 94-109, 128-143,
    184-199): the flow resumes when a callback has resolved the promise. *)
Definition signAndSend_in_block (label : string) (tx : Submittable) (account : KeyringPair)
  : itree scriptE unit :=
  await (signAndSend tx account);;
  wait_for_inclusion label.

(** *** The script's constants, in the order it computes them (lines 37-51,
    60-73, 112-125, 146-163, 168-181)

    The library calls that make them are functions here: on the valid
    private keys of the source they return. *)

Definition ALICE : KeyringPair := Keyring_addFromUri "sr25519" "//Alice".
Definition BOB : KeyringPair := Keyring_addFromUri "sr25519" "//Bob".

Definition ALICE_ROLE_SEED : Uint8Array :=
  new_Uint8Array (Buffer_from_hex "cb6df9de1efca7a3998a8ead4e02159d5fa99c3e0d4fd6432667390bb4726854").
Definition BOB_ROLE_SEED : Uint8Array :=
  new_Uint8Array (Buffer_from_hex "79c3b7fc0b7697b9414cb87adcb37317d1cab32818ae18c0e97ad76395d1fdcf").

Definition ALICE_ROLE : ECPairInterface := fromPrivateKey (Buffer_from ALICE_ROLE_SEED) None.
Definition BOB_ROLE : ECPairInterface := fromPrivateKey (Buffer_from BOB_ROLE_SEED) None.

Definition creatingProfileCall : Call :=
  roles_createProfile
    (Shared {| records := [ {| role := Tss DfnsCGGMP21Secp256k1 |} ];
               amount := "10000000000000000000" |})
    10.

Definition submittingJobCall : Call :=
  jobs_submitJob
    {| expiry := 100;
       ttl := 100;
       jobType := DkgtssPhaseOne
         {| DkgtssPhaseOne.participants := [address ALICE; address BOB];
            DkgtssPhaseOne.threshold := 1;
            DkgtssPhaseOne.permittedCaller := None;
            DkgtssPhaseOne.roleType := DfnsCGGMP21Secp256k1 |} |}.

Definition dkgPrivateKey : Uint8Array :=
  Buffer_from_hex "eec7245d6b7d2ccb30380bfbe2a3648cd7a942653f5aa340edcea1f283686619".
Definition dkgKeyPair : ECPairInterface :=
  fromPrivateKey dkgPrivateKey (Some {| compressed := Some false |}).

Definition dkgPublicKey : Uint8Array := publicKey dkgKeyPair.
Definition dkgPublicKeyHash : Uint8Array := keccak256AsU8a dkgPublicKey.
Definition lowR : bool := false.
Definition signature1 : Uint8Array := sign ALICE_ROLE (Buffer_from dkgPublicKeyHash) lowR.
Definition signature2 : Uint8Array := sign BOB_ROLE (Buffer_from dkgPublicKeyHash) lowR.
Definition v : Z := if lowR then 27 else 28.

(** The two arrays after the assignments [signatureNArray[64] = v]. *)
Definition signature1Array : JsArray := array_set (Array_from signature1) 64 v.
Definition signature2Array : JsArray := array_set (Array_from signature2) 64 v.

Definition submittingJobResultCall (jobId : JobId) : Call :=
  jobs_submitJobResult (Tss DfnsCGGMP21Secp256k1) jobId
    (DKGPhaseOne
       {| DKGPhaseOne.key := u8aToHex dkgPublicKey;
          DKGPhaseOne.signatures :=
            [u8aToHex (Uint8Array_from signature1Array);
             u8aToHex (Uint8Array_from signature2Array)];
          DKGPhaseOne.threshold := 1;
          DKGPhaseOne.signatureScheme := Ecdsa |}).

(** *** The procedure (lines 25-203) *)

Definition script : itree scriptE void :=
  await (ApiPromise_create "ws://127.0.0.1:9944");;
  await api_isReady;;
  ITree.trigger (console_log ["ALICE_ROLE_SEED:"; u8aToHex ALICE_ROLE_SEED]);;
  ITree.trigger (console_log ["BOB_ROLE_SEED:"; u8aToHex BOB_ROLE_SEED]);;
  ITree.trigger (console_log ["ALICE_ROLE:"; u8aToHex (publicKey ALICE_ROLE)]);;
  ITree.trigger (console_log ["BOB_ROLE:"; u8aToHex (publicKey BOB_ROLE)]);;
  nextJobId <- await api_query_jobs_nextJobId;;
  let jobId := nextJobId in
  creatingProfileTx <- ITree.trigger (api_tx creatingProfileCall);;
  signAndSend_in_block "[creatingProfileTx]" creatingProfileTx ALICE;;
  signAndSend_in_block "[creatingProfileTx]" creatingProfileTx BOB;;
  submittingJobTx <- ITree.trigger (api_tx submittingJobCall);;
  signAndSend_in_block "[submittingJobTx]" submittingJobTx ALICE;;
  ITree.trigger (console_assert (List.length signature1Array =? 65)%nat "Signature 1 length is invalid");;
  ITree.trigger (console_assert (List.length signature2Array =? 65)%nat "Signature 2 length is invalid");;
  submittingJobResultTx <- ITree.trigger (api_tx (submittingJobResultCall jobId));;
  signAndSend_in_block "[submittingJobResultTx]" submittingJobResultTx ALICE;;
  ITree.trigger (process_exit 0).

(** ** The collaborators: a node, the console, the process *)

(** A node is any state machine answering the four requests of the script.
    A submission answers with the notifications its subscription delivers. *)
Record Node := {
  node_state : Type;
  node_connect : string -> node_state -> Promise unit * node_state;
  node_ready : node_state -> Promise unit * node_state;
  node_nextJobId : node_state -> Promise JobId * node_state;
  node_submit : Call -> KeyringPair -> node_state ->
                Promise (list SubmittableResult) * node_state }.

(** What the script does that can be seen from outside; a request is
    recorded with the way its promise ended. *)
Variant Action :=
| Connect (endpoint : string) (reply : Promise unit)
| AwaitReady (reply : Promise unit)
| ReadNextJobId (reply : Promise JobId)
| Submit (tx : Submittable) (c : Call) (account : KeyringPair) (reply : Promise unit)
| Notified (r : SubmittableResult)
| Unsubscribed
| Print (args : list string)
| AssertionFailed (message : string).

(** A [SubmittableExtrinsic] object: [signAndSend] signs it in place. *)
Record Extrinsic := { call : Call; signer : option KeyringPair }.

Definition subscribed {X} (p : Promise X) : Promise unit :=
  match p with
  | Fulfilled _ => Fulfilled tt
  | RejectedWith e => RejectedWith e
  | NeverSettles => NeverSettles
  end.

Section World.

Variable N : Node.

Record World := {
  node : node_state N;
  extrinsics : list Extrinsic;
  subscription : list SubmittableResult;
  log : list Action }.

Definition initial (s : node_state N) : World :=
  {| node := s; extrinsics := []; subscription := []; log := [] |}.

Definition record (a : Action) (w : World) : World :=
  {| node := node w; extrinsics := extrinsics w; subscription := subscription w;
     log := log w ++ [a] |}.

Definition with_node (s : node_state N) (w : World) : World :=
  {| node := s; extrinsics := extrinsics w; subscription := subscription w; log := log w |}.

Definition with_subscription (l : list SubmittableResult) (w : World) : World :=
  {| node := node w; extrinsics := extrinsics w; subscription := l; log := log w |}.

Definition with_extrinsics (l : list Extrinsic) (w : World) : World :=
  {| node := node w; extrinsics := l; subscription := subscription w; log := log w |}.

(** Assignment to a slot of the store; there is none out of range. *)
Fixpoint update {A} (l : list A) (i : nat) (a : A) : list A :=
  match l, i with
  | [], _ => []
  | _ :: rest, O => a :: rest
  | x :: rest, S i' => x :: update rest i' a
  end.

Variant Reply (X : Type) :=
| Resume (x : X) (w : World)
| Halt (o : Outcome) (w : World).
Arguments Halt {X} o w.

(** An awaited promise resumes the flow with its value, throws its
    rejection, or never resumes it. *)
Definition settle {X} (p : Promise X) (w : World) : Reply (Error + X) :=
  match p with
  | Fulfilled x => Resume (inr x) w
  | RejectedWith e => Resume (inl e) w
  | NeverSettles => Halt Suspended w
  end.

Definition handle {X} (e : scriptE X) (w : World) : Reply X :=
  match e in scriptE X return Reply X with
  | ApiPromise_create endpoint =>
      let (p, s) := node_connect N endpoint (node w) in
      settle p (with_node s (record (Connect endpoint p) w))
  | api_isReady =>
      let (p, s) := node_ready N (node w) in
      settle p (with_node s (record (AwaitReady p) w))
  | api_query_jobs_nextJobId =>
      let (p, s) := node_nextJobId N (node w) in
      settle p (with_node s (record (ReadNextJobId p) w))
  | api_tx c =>
      Resume (List.length (extrinsics w))
             (with_extrinsics (extrinsics w ++ [ {| call := c; signer := None |} ]) w)
  | signAndSend tx account =>
      match nth_error (extrinsics w) tx with
      | None => Resume (inl "not an extrinsic") w
      | Some x =>
          let (p, s) := node_submit N (call x) account (node w) in
          let signed := update (extrinsics w) tx {| call := call x; signer := Some account |} in
          let w1 :=
            with_node s
              (record (Submit tx (call x) account (subscribed p)) (with_extrinsics signed w)) in
          match p with
          | Fulfilled l => Resume (inr tt) (with_subscription l w1)
          | RejectedWith e => Resume (inl e) w1
          | NeverSettles => Halt Suspended w1
          end
      end
  | statusCallback =>
      match subscription w with
      | [] => Halt Suspended w
      | r :: rest => Resume r (record (Notified r) (with_subscription rest w))
      end
  | unsub => Resume tt (record Unsubscribed (with_subscription [] w))
  | console_log args => Resume tt (record (Print args) w)
  | console_assert cond message =>
      Resume tt (if cond then w else record (AssertionFailed message) w)
  | process_exit code => Halt (Exited code) w
  | unhandledRejection e => Halt (Unhandled e) w
  end.

(** Running a tree against the collaborators: a leaf returns its value with
    the fuel left, an event is answered by [handle]. *)
Variant Result (R : Type) :=
| Returned (r : R) (w : World) (left : nat)
| Halted (o : Outcome) (w : World)
| OutOfFuel.
Arguments Halted {R} o w.
Arguments OutOfFuel {R}.

Fixpoint run {R} (fuel : nat) (t : itree scriptE R) (w : World) : Result R :=
  match fuel with
  | O => OutOfFuel
  | S fuel' =>
      match observe t with
      | RetF r => Returned r w fuel
      | TauF t' => run fuel' t' w
      | VisF e k =>
          match handle e w with
          | Resume x w' => run fuel' (k x) w'
          | Halt o w' => Halted o w'
          end
      end
  end.

End World.

(** ** The behaviours of the script, as its log shows them *)

(** How a promise that does not resume the flow ends it. *)
Definition ended {X} (p : Promise X) : option Outcome :=
  match p with
  | Fulfilled _ => None
  | RejectedWith e => Some (Unhandled e)
  | NeverSettles => Some Suspended
  end.

(** What the callback prints when it sees the transaction in a block. *)
Definition inclusion_lines (label : string) (r : SubmittableResult) : list Action :=
  Print [label ++ " Included at block hash"; asInBlock_toHex (status r)]
  :: Print [label ++ " Events:"]
  :: map (fun ev => Print [event_line ev]) (events_or_empty r).

(** A subscription that went silent before any inclusion. *)
Inductive Awaiting : list Action -> Prop :=
| awaiting_silence : Awaiting []
| awaiting_more r l :
    isInBlock (status r) = false -> Awaiting l -> Awaiting (Notified r :: l).

(** A subscription followed up to the first inclusion. *)
Inductive Included (label : string) : list Action -> Prop :=
| included_now r :
    isInBlock (status r) = true ->
    Included label (Notified r :: inclusion_lines label r ++ [Unsubscribed])
| included_later r l :
    isInBlock (status r) = false -> Included label l -> Included label (Notified r :: l).

(** One [signAndSend] and its wait: [None] when the flow goes on. *)
Inductive Submitted (label : string) (tx : Submittable) (c : Call) (account : KeyringPair)
  : option Outcome -> list Action -> Prop :=
| submitted_rejected e :
    Submitted label tx c account (Some (Unhandled e)) [Submit tx c account (RejectedWith e)]
| submitted_unanswered :
    Submitted label tx c account (Some Suspended) [Submit tx c account NeverSettles]
| submitted_awaiting l :
    Awaiting l ->
    Submitted label tx c account (Some Suspended) (Submit tx c account (Fulfilled tt) :: l)
| submitted_included l :
    Included label l ->
    Submitted label tx c account None (Submit tx c account (Fulfilled tt) :: l).

(** A submission of the script, with what the console shows before it. *)
Record Submission := {
  sub_before : list Action;
  sub_label : string;
  sub_tx : Submittable;
  sub_call : Call;
  sub_account : KeyringPair }.

Inductive Submissions : list Submission -> Outcome -> list Action -> Prop :=
| all_included : Submissions [] (Exited 0) []
| one_stops b rest o l :
    Submitted (sub_label b) (sub_tx b) (sub_call b) (sub_account b) (Some o) l ->
    Submissions (b :: rest) o (sub_before b ++ l)
| one_included b rest o l l' :
    Submitted (sub_label b) (sub_tx b) (sub_call b) (sub_account b) None l ->
    Submissions rest o l' ->
    Submissions (b :: rest) o (sub_before b ++ l ++ l').

Definition endpoint : string := "ws://127.0.0.1:9944".

Definition keys_printed : list Action :=
  [ Print ["ALICE_ROLE_SEED:"; u8aToHex ALICE_ROLE_SEED];
    Print ["BOB_ROLE_SEED:"; u8aToHex BOB_ROLE_SEED];
    Print ["ALICE_ROLE:"; u8aToHex (publicKey ALICE_ROLE)];
    Print ["BOB_ROLE:"; u8aToHex (publicKey BOB_ROLE)] ].

Definition preamble (reply : Promise JobId) : list Action :=
  [Connect endpoint (Fulfilled tt); AwaitReady (Fulfilled tt)]
  ++ keys_printed ++ [ReadNextJobId reply].

Definition assertion (cond : bool) (message : string) : list Action :=
  if cond then [] else [AssertionFailed message].

Definition assertions : list Action :=
  assertion (List.length signature1Array =? 65)%nat "Signature 1 length is invalid"
  ++ assertion (List.length signature2Array =? 65)%nat "Signature 2 length is invalid".

Definition submissions (jobId : JobId) : list Submission :=
  [ {| sub_before := []; sub_label := "[creatingProfileTx]"; sub_tx := 0%nat;
       sub_call := creatingProfileCall; sub_account := ALICE |};
    {| sub_before := []; sub_label := "[creatingProfileTx]"; sub_tx := 0%nat;
       sub_call := creatingProfileCall; sub_account := BOB |};
    {| sub_before := []; sub_label := "[submittingJobTx]"; sub_tx := 1%nat;
       sub_call := submittingJobCall; sub_account := ALICE |};
    {| sub_before := assertions; sub_label := "[submittingJobResultTx]"; sub_tx := 2%nat;
       sub_call := submittingJobResultCall jobId; sub_account := ALICE |} ].

Inductive Behaviour : Outcome -> list Action -> Prop :=
| no_connection p o :
    ended p = Some o -> Behaviour o [Connect endpoint p]
| not_ready p o :
    ended p = Some o -> Behaviour o [Connect endpoint (Fulfilled tt); AwaitReady p]
| no_job_id p o :
    ended p = Some o -> Behaviour o (preamble p)
| submitting jobId o l :
    Submissions (submissions jobId) o l -> Behaviour o (preamble (Fulfilled jobId) ++ l).

(** ** Reading a log *)

(** The submissions of a log: which object, what call data, signed by whom. *)
Definition submitted (l : list Action) : list (Submittable * Call * KeyringPair) :=
  flat_map (fun a => match a with Submit tx c account _ => [(tx, c, account)] | _ => [] end) l.

Definition planned (jobId : JobId) : list (Submittable * Call * KeyringPair) :=
  map (fun b => (sub_tx b, sub_call b, sub_account b)) (submissions jobId).

(** A transaction is in flight from the moment the node accepted it to the
    moment a callback sees it in a block. *)
Definition flight (n : nat) (a : Action) : nat :=
  match a with
  | Submit _ _ _ (Fulfilled _) => S n
  | Notified r => if isInBlock (status r) then pred n else n
  | _ => n
  end.

Definition in_flight (l : list Action) : nat := fold_left flight l 0%nat.

(** The inclusions the callbacks have seen. *)
Definition inclusions (l : list Action) : list SubmittableResult :=
  flat_map (fun a => match a with
                     | Notified r => if isInBlock (status r) then [r] else []
                     | _ => []
                     end) l.

Definition failed_assertions (l : list Action) : list string :=
  flat_map (fun a => match a with AssertionFailed m => [m] | _ => [] end) l.

(** What the console shows under one of the labels of the key material. *)
Definition shown (label : string) (l : list Action) : list string :=
  flat_map (fun a => match a with
                     | Print [k; x] => if String.eqb k label then [x] else []
                     | _ => []
                     end) l.

(** The reply a request was recorded with. *)
Definition reply_of (a : Action) : option (Promise unit) :=
  match a with
  | Connect _ p | AwaitReady p | Submit _ _ _ p => Some p
  | ReadNextJobId p => Some (subscribed p)
  | _ => None
  end.

(** ** A local test chain *)

(** Modelled from the spec: the chain the script talks to is not under the
    sources.  A job submission "yields a job identifier assigned by the
    chain", "equal to the chain's pre-submission next job id counter value";
    a result is "submitted back referencing the job identifier"; a
    transaction that was submitted is reported "included in a block". *)
Record Chain := {
  nextJobId : JobId;
  profiles : list (Address * Profile);
  jobs : list (JobId * JobSubmission);
  results : list (JobId * JobResult) }.

(** Modelled from the spec: what including one call does to the chain. *)
Definition dispatch (c : Call) (who : Address) (ch : Chain) : Chain :=
  match c with
  | roles_createProfile p _ =>
      {| nextJobId := nextJobId ch; profiles := profiles ch ++ [(who, p)];
         jobs := jobs ch; results := results ch |}
  | jobs_submitJob job =>
      {| nextJobId := nextJobId ch + 1; profiles := profiles ch;
         jobs := jobs ch ++ [(nextJobId ch, job)]; results := results ch |}
  | jobs_submitJobResult _ jobId r =>
      {| nextJobId := nextJobId ch; profiles := profiles ch;
         jobs := jobs ch; results := results ch ++ [(jobId, r)] |}
  end.

(** Modelled from the spec: a node of a local network with no other client;
    it accepts every submission and reports it ready, then in a block. *)
Definition LocalChain : Node :=
  {| node_state := Chain;
     node_connect := fun _ ch => (Fulfilled tt, ch);
     node_ready := fun ch => (Fulfilled tt, ch);
     node_nextJobId := fun ch => (Fulfilled (nextJobId ch), ch);
     node_submit := fun c account ch =>
       (Fulfilled [ {| events := None; status := Ready |};
                    {| events := Some []; status := InBlock [] |} ],
        dispatch c (address account) ch) |}.

End Script.

Arguments Halted {keyring N R} o w.
Arguments OutOfFuel {keyring N R}.
Arguments Halt {keyring N X} o w.
Arguments initial {keyring N} s.

(** The script has ended in [o], leaving the world [w]: from some fuel on,
    that is what its run gives. *)
Definition ends_in {keyring : KeyringAPI} {ECPair : ECPairAPI} {keccak : Keccak}
  {N : Node} (s : node_state N) (o : Outcome) (w : World N) : Prop :=
  exists fuel, forall fuel', (fuel <= fuel')%nat -> run fuel' script (initial s) = Halted o w.

(** ** Notions the properties are stated with *)

Section Notions.

Context {keyring : KeyringAPI} {ECPair : ECPairAPI} {keccak : Keccak}.

(** [wp t w Q H]: the run of [t] from [w] ends, by returning in a world of
    [Q] or by halting in a world of [H]. *)
Definition wp {N : Node} {R} (t : itree scriptE R) (w : World N)
  (Q : R -> World N -> Prop) (H : Outcome -> World N -> Prop) : Prop :=
  exists fuel,
    match run fuel t w with
    | Returned r w' _ => Q r w'
    | Halted o w' => H o w'
    | OutOfFuel => False
    end.

(** What a status callback leaves in the log. *)
Definition of_callback (label : string) (a : Action) : Prop :=
  match a with
  | Notified _ | Unsubscribed | Print [_] => True
  | Print [k; _] => k = (label ++ " Included at block hash")%string
  | _ => False
  end.

(** [orderly n l]: along [l], entered with [n] transactions in flight, there
    is never more than one, and none when a submission begins. *)
Definition orderly (n : nat) (l : list Action) : Prop :=
  forall l1 l2, l = (l1 ++ l2)%list ->
    (fold_left flight l1 n <= 1)%nat /\
    (forall tx c account reply l3,
        l2 = Submit tx c account reply :: l3 -> fold_left flight l1 n = 0%nat).

(** An action that is no submission and leaves the count as it is. *)
Definition idle (a : Action) : Prop :=
  match a with
  | Submit _ _ _ _ => False
  | Notified r => isInBlock (status r) = false
  | _ => True
  end.










(** The calls of [unsub] in a log. *)
Definition unsubscriptions (l : list Action) : nat :=
  List.length (flat_map (fun a => match a with Unsubscribed => [tt] | _ => [] end) l).

(** Whether a series of notifications reports an inclusion. *)
Definition included (l : list SubmittableResult) : bool :=
  existsb (fun r => isInBlock (status r)) l.

(** How the answer to a submission ends the flow: [None] when it goes on. *)
Definition stopped (p : Promise (list SubmittableResult)) : option Outcome :=
  match p with
  | Fulfilled l => if included l then None else Some Suspended
  | RejectedWith e => Some (Unhandled e)
  | NeverSettles => Some Suspended
  end.

(** The submissions of a plan made of a node one after the other, up to the
    first that stops the flow: the outcome, the state the node is left in,
    and the submissions that were made. *)
Fixpoint submit_all {N : Node} (plan : list Submission) (s : node_state N)
  : Outcome * node_state N * list (Submittable * Call * KeyringPair) :=
  match plan with
  | [] => (Exited 0, s, [])
  | b :: rest =>
      let (p, s') := node_submit N (sub_call b) (sub_account b) s in
      match stopped p with
      | Some o => (o, s', [(sub_tx b, sub_call b, sub_account b)])
      | None =>
          let '(o, s'', made) := submit_all rest s' in
          (o, s'', (sub_tx b, sub_call b, sub_account b) :: made)
      end
  end.

(** The requests of the script made of a node in their order: connection,
    readiness, the next job identifier, the four submissions. *)
Definition summary {N : Node} (s : node_state N)
  : Outcome * node_state N * list (Submittable * Call * KeyringPair) :=
  let (p1, s1) := node_connect N endpoint s in
  match ended p1 with
  | Some o => (o, s1, [])
  | None =>
      let (p2, s2) := node_ready N s1 in
      match ended p2 with
      | Some o => (o, s2, [])
      | None =>
          let (p3, s3) := node_nextJobId N s2 in
          match p3 with
          | Fulfilled jobId => submit_all (submissions jobId) s3
          | RejectedWith e => (Unhandled e, s3, [])
          | NeverSettles => (Suspended, s3, [])
          end
      end
  end.

(** The extrinsic objects the script holds after [n] submissions, each with
    the account that signed it last. *)
Definition objects (n : nat) (jobId : JobId) : list Extrinsic :=
  match n with
  | 0%nat => []
  | 1%nat => [ {| call := creatingProfileCall; signer := Some ALICE |} ]
  | 2%nat => [ {| call := creatingProfileCall; signer := Some BOB |} ]
  | 3%nat => [ {| call := creatingProfileCall; signer := Some BOB |};
               {| call := submittingJobCall; signer := Some ALICE |} ]
  | _ => [ {| call := creatingProfileCall; signer := Some BOB |};
           {| call := submittingJobCall; signer := Some ALICE |};
           {| call := submittingJobResultCall jobId; signer := Some ALICE |} ]
  end.

(** A notification with its events rewritten. *)
Definition rewritten (g : option (list EventRecord) -> option (list EventRecord))
  (r : SubmittableResult) : SubmittableResult :=
  {| events := g (events r); status := status r |}.

(** A node that reports the same statuses as [N] and other events. *)
Definition with_events (g : option (list EventRecord) -> option (list EventRecord))
  (N : Node) : Node :=
  {| node_state := node_state N;
     node_connect := node_connect N;
     node_ready := node_ready N;
     node_nextJobId := node_nextJobId N;
     node_submit := fun c account s =>
       let (p, s') := node_submit N c account s in
       (match p with
        | Fulfilled l => Fulfilled (map (rewritten g) l)
        | RejectedWith e => RejectedWith e
        | NeverSettles => NeverSettles
        end, s') |}.

(** The chain after the four transactions of the script. *)
Definition after_the_script (ch : Chain) : Chain :=
  dispatch (submittingJobResultCall (nextJobId ch)) (address ALICE)
    (dispatch submittingJobCall (address ALICE)
       (dispatch creatingProfileCall (address BOB)
          (dispatch creatingProfileCall (address ALICE) ch))).

End Notions.

(** ** Stand-ins to run the script with *)

Module Demo.

(** A pair is its secret URI, which is its address too. *)
#[export] Instance keyring : KeyringAPI :=
  {| KeyringPair := string;
     Keyring_addFromUri := fun _ suri => suri;
     address := fun pair => pair |}.

(** A key pair is its private key and its compression flag; the public key
    is a prefix byte and the private key, once or twice; a signature is the
    private key and the hash. *)
#[export] Instance ECPair : ECPairAPI :=
  {| ECPairInterface := Uint8Array * bool;
     fromPrivateKey := fun d options =>
       (d, match options with
           | Some {| compressed := Some flag |} => flag
           | _ => true
           end);
     publicKey := fun pair =>
       if snd pair then (x02 :: fst pair)%list else (x04 :: fst pair ++ fst pair)%list;
     sign := fun pair h _ => (fst pair ++ h)%list |}.

(** The first 32 bytes, padded with zeros. *)
#[export] Instance keccak : Keccak := fun b => firstn 32 (b ++ repeat x00 32)%list.

(** A node that answers the submissions as a list says, one after the
    other, and then no more; the next job identifier is 7. *)
Definition answering : Node :=
  {| node_state := list (Promise (list SubmittableResult));
     node_connect := fun _ s => (Fulfilled tt, s);
     node_ready := fun s => (Fulfilled tt, s);
     node_nextJobId := fun s => (Fulfilled 7, s);
     node_submit := fun _ _ s =>
       match s with
       | [] => (NeverSettles, [])
       | p :: rest => (p, rest)
       end |}.

Definition success : EventRecord :=
  {| section := "system"; method := "ExtrinsicSuccess"; data := "{}" |}.

Definition failure : EventRecord :=
  {| section := "system"; method := "ExtrinsicFailed"; data := "{}" |}.

(** Ready, then in a block with the given events, then finalized. *)
Definition in_block (evs : list EventRecord) : Promise (list SubmittableResult) :=
  Fulfilled [ {| events := None; status := Ready |};
              {| events := Some evs; status := InBlock [x0a; xbc] |};
              {| events := None; status := Finalized [x0a; xbc] |} ].

(** Ready, then invalid, then nothing. *)
Definition dropped : Promise (list SubmittableResult) :=
  Fulfilled [ {| events := None; status := Ready |};
              {| events := None; status := Invalid |} ].

(** A node that answers every request, and reports every submission ready
    and then in a block. *)
Definition obliging : Node :=
  {| node_state := unit;
     node_connect := fun _ s => (Fulfilled tt, s);
     node_ready := fun s => (Fulfilled tt, s);
     node_nextJobId := fun s => (Fulfilled 7, s);
     node_submit := fun _ _ s => (in_block [success], s) |}.

(** A signing function that returns more than 64 bytes: the private key,
    the hash and six more. *)
Definition wordy : ECPairAPI :=
  {| ECPairInterface := Uint8Array * bool;
     fromPrivateKey := fun d options => (d, true);
     publicKey := fun pair => (x02 :: fst pair)%list;
     sign := fun pair h _ => (fst pair ++ h ++ repeat x00 6)%list |}.

End Demo.

(** * Properties *)

Unset Implicit Arguments.
Local Open Scope list_scope.

Section Properties.

Context {keyring : KeyringAPI} {ECPair : ECPairAPI} {keccak : Keccak}.

(** ** Running trees: fuel, sequencing, and a weakest-precondition calculus *)

Section Running.

Variable N : Node.
Implicit Types w : World N.

Lemma run_observe R (t u : itree scriptE R) fuel w :
  observe t = observe u -> run fuel t w = run fuel u w.
Proof. destruct fuel; cbn; intros E; [reflexivity | now rewrite E]. Qed.

(** More fuel changes nothing but the fuel left. *)
Lemma run_more R fuel : forall (t : itree scriptE R) w d,
  match run fuel t w with
  | Returned r w' l => run (fuel + d) t w = Returned r w' (l + d)
  | Halted o w' => run (fuel + d) t w = Halted o w'
  | OutOfFuel => True
  end.
Proof.
  induction fuel as [|fuel IH]; intros t w d; cbn; [exact I|].
  destruct (observe t) as [r | t' | X e k]; [reflexivity | apply IH |].
  destruct (handle e w) as [x w' | o w']; [apply IH | reflexivity].
Qed.

Lemma run_bind R S fuel : forall (t : itree scriptE R) (k : R -> itree scriptE S) w,
  run fuel (ITree.bind t k) w =
  match run fuel t w with
  | Returned r w' l => run l (k r) w'
  | Halted o w' => Halted o w'
  | OutOfFuel => OutOfFuel
  end.
Proof.
  induction fuel as [|fuel IH]; intros t k w; [reflexivity|].
  cbn [run]. rewrite observe_bind.
  destruct (observe t) as [r | t' | X e h]; cbn.
  - reflexivity.
  - apply IH.
  - destruct (handle e w) as [x w' | o w']; [apply IH | reflexivity].
Qed.

Lemma wp_observe R (t u : itree scriptE R) w Q H :
  observe t = observe u -> wp u w Q H -> wp t w Q H.
Proof. intros E [fuel Hu]. exists fuel. now rewrite (run_observe R t u fuel w E). Qed.

Lemma wp_ret R (r : R) w Q H : Q r w -> wp (Ret r) w Q H.
Proof. intros HQ. exists 1%nat. exact HQ. Qed.

Lemma wp_tau R (t : itree scriptE R) w Q H : wp t w Q H -> wp (Tau t) w Q H.
Proof. intros [fuel Ht]. exists (S fuel). exact Ht. Qed.

Lemma wp_vis R X (e : scriptE X) (k : X -> itree scriptE R) w Q H :
  match handle e w with
  | Resume x w' => wp (k x) w' Q H
  | Halt o w' => H o w'
  end ->
  wp (Vis e k) w Q H.
Proof.
  destruct (handle e w) as [x w' | o w'] eqn:E.
  - intros [fuel Hk]. exists (S fuel). cbn. now rewrite E.
  - intros HH. exists 1%nat. cbn. now rewrite E.
Qed.

Lemma wp_trigger X (e : scriptE X) w Q H :
  match handle e w with
  | Resume x w' => Q x w'
  | Halt o w' => H o w'
  end ->
  wp (ITree.trigger e) w Q H.
Proof.
  intros He. apply wp_vis. destruct (handle e w); [now apply wp_ret | exact He].
Qed.

Lemma wp_bind R S (t : itree scriptE R) (k : R -> itree scriptE S) w Q H :
  wp t w (fun r w' => wp (k r) w' Q H) H -> wp (ITree.bind t k) w Q H.
Proof.
  intros [f1 Ht].
  destruct (run f1 t w) as [r w' l | o w' |] eqn:E1; [| | contradiction].
  - destruct Ht as [f2 Hk]. exists (f1 + f2)%nat.
    rewrite run_bind.
    pose proof (run_more R f1 t w f2) as M1. rewrite E1 in M1. rewrite M1.
    pose proof (run_more S f2 (k r) w' l) as M2.
    rewrite (Nat.add_comm l f2).
    destruct (run f2 (k r) w') as [r' w'' l' | o w'' |]; [| | contradiction];
      now rewrite M2.
  - exists f1. rewrite run_bind, E1. exact Ht.
Qed.

Lemma wp_weaken R (t : itree scriptE R) w (Q Q' : R -> World N -> Prop)
  (H H' : Outcome -> World N -> Prop) :
  wp t w Q H ->
  (forall r w', Q r w' -> Q' r w') ->
  (forall o w', H o w' -> H' o w') ->
  wp t w Q' H'.
Proof.
  intros [fuel Ht] HQ HH. exists fuel.
  destruct (run fuel t w); auto.
Qed.

(** The run is a function of the tree and the world: whatever fuel ends
    it ends it the same way. *)
Lemma wp_run R (t : itree scriptE R) w Q H :
  wp t w Q H ->
  forall fuel,
    match run fuel t w with
    | Returned r w' _ => Q r w'
    | Halted o w' => H o w'
    | OutOfFuel => True
    end.
Proof.
  intros [f0 H0] fuel.
  destruct (Nat.le_ge_cases fuel f0) as [L | L].
  - pose proof (run_more R fuel t w (f0 - fuel)) as M.
    replace (fuel + (f0 - fuel))%nat with f0 in M by lia.
    destruct (run fuel t w) as [r w' l | o w' |]; [| | exact I];
      now rewrite M in H0.
  - pose proof (run_more R f0 t w (fuel - f0)) as M.
    replace (f0 + (fuel - f0))%nat with fuel in M by lia.
    destruct (run f0 t w) as [r w' l | o w' |]; [| | contradiction];
      now rewrite M.
Qed.

(** [await p] resumes with the value, or halts the flow. *)
Lemma wp_await X (p : scriptE (Error + X)) w Q H :
  match handle p w with
  | Resume (inr x) w' => Q x w'
  | Resume (inl e) w' => H (Unhandled e) w'
  | Halt o w' => H o w'
  end ->
  wp (await p) w Q H.
Proof.
  intros Hp. unfold await. apply wp_bind, wp_trigger.
  destruct (handle p w) as [[e | x] w' | o w']; [| now apply wp_ret | exact Hp].
  apply wp_bind, wp_trigger. exact Hp.
Qed.

(** ** The status callback and the wait for inclusion *)

Lemma log_record (a : Action) w : log (record a w) = log w ++ [a].
Proof. reflexivity. Qed.

Lemma wp_forEach_print (l : list EventRecord) : forall w (Q : unit -> World N -> Prop) H,
  (forall w', log w' = log w ++ map (fun ev => Print [event_line ev]) l ->
              node w' = node w -> extrinsics w' = extrinsics w -> Q tt w') ->
  wp (forEach l (fun ev => ITree.trigger (console_log [event_line ev]))) w Q H.
Proof.
  induction l as [|ev l IH]; intros w Q H HQ; cbn [forEach].
  - apply wp_ret, HQ; cbn; [now rewrite app_nil_r | reflexivity | reflexivity].
  - apply wp_bind, wp_trigger. cbn [handle]. apply IH. intros w' Hl Hn Hx.
    apply HQ; [| exact Hn | exact Hx].
    rewrite Hl, log_record, <- app_assoc. reflexivity.
Qed.

Lemma wp_callback_included label r w (Q : unit + unit -> World N -> Prop) H :
  isInBlock (status r) = true ->
  (forall w', log w' = log w ++ inclusion_lines label r ++ [Unsubscribed] ->
              node w' = node w -> extrinsics w' = extrinsics w -> Q (inr tt) w') ->
  wp (callback label r) w Q H.
Proof.
  intros Hin HQ. unfold callback. rewrite Hin.
  apply wp_bind, wp_trigger. cbn [handle].
  apply wp_bind, wp_trigger. cbn [handle].
  apply wp_bind, wp_forEach_print. intros w1 Hl Hn Hx.
  apply wp_bind, wp_trigger. cbn [handle].
  apply wp_ret, HQ; cbn.
  - rewrite Hl. cbn. unfold inclusion_lines. rewrite <- !app_assoc. reflexivity.
  - exact Hn.
  - exact Hx.
Qed.

Lemma wp_wait label (l : list SubmittableResult) : forall w,
  subscription w = l ->
  wp (wait_for_inclusion label) w
    (fun _ w' => exists d, Included label d /\ log w' = log w ++ d /\
                           node w' = node w /\ extrinsics w' = extrinsics w)
    (fun o w' => o = Suspended /\ existsb (fun r => isInBlock (status r)) l = false /\
                 exists d, Awaiting d /\ log w' = log w ++ d).
Proof.
  induction l as [|r l IH]; intros w Hs.
  - eapply wp_observe; [apply (observing_observe (unfold_aloop_ _ _))|].
    apply wp_bind, wp_bind, wp_trigger. unfold handle. rewrite Hs.
    split; [reflexivity|]. split; [reflexivity|].
    exists []. split; [constructor | now rewrite app_nil_r].
  - eapply wp_observe; [apply (observing_observe (unfold_aloop_ _ _))|].
    apply wp_bind, wp_bind, wp_trigger. unfold handle. rewrite Hs.
    cbn [existsb]. destruct (isInBlock (status r)) eqn:Hin.
    + apply wp_callback_included; [exact Hin|]. intros w' Hl Hn Hx.
      apply wp_ret. exists (Notified r :: inclusion_lines label r ++ [Unsubscribed]).
      split; [now constructor|]. cbn in Hl, Hn, Hx.
      rewrite Hl, <- app_assoc. auto.
    + unfold callback. rewrite Hin. apply wp_ret, wp_tau.
      eapply wp_weaken; [apply IH; reflexivity | |].
      * intros _ w' (d & Hd & Hl & Hn & Hx). exists (Notified r :: d).
        split; [now constructor|]. cbn in Hl. rewrite Hl, <- app_assoc. auto.
      * intros o w' (Ho & He & d & Hd & Hl). split; [exact Ho|]. split; [exact He|].
        exists (Notified r :: d).
        split; [now constructor|]. cbn in Hl. rewrite Hl, <- app_assoc. auto.
Qed.

Lemma map_call_update (l : list Extrinsic) : forall tx x a,
  nth_error l tx = Some x ->
  map call (update l tx {| call := call x; signer := a |}) = map call l.
Proof.
  induction l as [|y l IH]; intros [|tx] x a; cbn; try discriminate.
  - intros [= ->]. reflexivity.
  - intros E. now rewrite (IH tx x a E).
Qed.

Lemma nth_error_call (l : list Extrinsic) tx c :
  nth_error (map call l) tx = Some c ->
  exists x, nth_error l tx = Some x /\ call x = c.
Proof.
  rewrite nth_error_map. destruct (nth_error l tx) as [x|]; cbn; [|discriminate].
  intros [= <-]. now exists x.
Qed.

(** One submission: the flow goes on only after an inclusion was seen. *)
Lemma wp_signAndSend_in_block label tx account c w :
  nth_error (map call (extrinsics w)) tx = Some c ->
  wp (signAndSend_in_block label tx account) w
    (fun _ w' => exists d, Submitted label tx c account None d /\ log w' = log w ++ d /\
                           map call (extrinsics w') = map call (extrinsics w))
    (fun o w' => exists d, Submitted label tx c account (Some o) d /\ log w' = log w ++ d).
Proof.
  intros Hc. destruct (nth_error_call _ _ _ Hc) as (x & Hx & <-).
  unfold signAndSend_in_block. apply wp_bind, wp_await.
  unfold handle. rewrite Hx.
  destruct (node_submit N (call x) account (node w)) as [[l | e |] s]; cbn [subscribed].
  - eapply wp_weaken; [apply (wp_wait label l); reflexivity | |].
    + intros _ w' (d & Hd & Hl & _ & He). eexists. split; [apply submitted_included, Hd|].
      cbn in Hl, He. rewrite Hl, He, <- app_assoc. split; [reflexivity|].
      now apply map_call_update.
    + intros o w' (-> & _ & d & Hd & Hl). eexists. split; [apply submitted_awaiting, Hd|].
      cbn in Hl. now rewrite Hl, <- app_assoc.
  - eexists. split; [apply submitted_rejected | reflexivity].
  - eexists. split; [apply submitted_unanswered | reflexivity].
Qed.

(** A submission the node accepts and reports in a block: the flow goes on. *)
Lemma wp_signAndSend_included label tx account c w l s' :
  nth_error (map call (extrinsics w)) tx = Some c ->
  node_submit N c account (node w) = (Fulfilled l, s') ->
  existsb (fun r => isInBlock (status r)) l = true ->
  wp (signAndSend_in_block label tx account) w
    (fun _ w' => node w' = s' /\ map call (extrinsics w') = map call (extrinsics w) /\
                 exists d, Submitted label tx c account None d /\ log w' = log w ++ d)
    (fun _ _ => False).
Proof.
  intros Hc Hn Hl. destruct (nth_error_call _ _ _ Hc) as (x & Hx & <-).
  unfold signAndSend_in_block. apply wp_bind, wp_await.
  unfold handle. rewrite Hx, Hn.
  eapply wp_weaken; [apply (wp_wait label l); reflexivity | |].
  - intros _ w' (d & Hd & Hlog & Hnode & He). cbn in Hlog, Hnode, He.
    split; [exact Hnode|]. split; [rewrite He; now apply map_call_update|].
    eexists. split; [apply submitted_included, Hd|]. now rewrite Hlog, <- app_assoc.
  - intros o w' (_ & He & _). congruence.
Qed.

Lemma log_assert (cond : bool) message w :
  log (if cond then w else record (AssertionFailed message) w)
  = log w ++ assertion cond message.
Proof. destruct cond; cbn; [now rewrite app_nil_r | reflexivity]. Qed.

Lemma extrinsics_assert (cond : bool) message w :
  extrinsics (if cond then w else record (AssertionFailed message) w) = extrinsics w.
Proof. now destruct cond. Qed.

Lemma length_extrinsics w (l : list Call) :
  map call (extrinsics w) = l -> List.length (extrinsics w) = List.length l.
Proof. intros <-. now rewrite length_map. Qed.

(** The script against any node: its flow halts, and the log of what it
    did is one of [Behaviour]. *)
Theorem script_behaviour (s : node_state N) :
  wp script (initial s) (fun (_ : void) _ => False) (fun o w => Behaviour o (log w)).
Proof.
  unfold script.
  apply wp_bind, wp_await. unfold handle at 1. cbn [node initial].
  destruct (node_connect N _ s) as [[[] | e |] s1]; cbn [settle];
    [| now constructor | now constructor].
  apply wp_bind, wp_await. unfold handle at 1. cbn [node with_node].
  destruct (node_ready N s1) as [[[] | e |] s2]; cbn [settle];
    [| now constructor | now constructor].
  do 4 (apply wp_bind, wp_trigger; cbn [handle]).
  apply wp_bind, wp_await. unfold handle at 1. cbn [node with_node record].
  destruct (node_nextJobId N s2) as [[jobId | e |] s3]; cbn [settle];
    [| now apply (no_job_id (RejectedWith e)) | now apply (no_job_id NeverSettles)].
  pose (b1 := nth 0 (submissions jobId) (Build_Submission [] EmptyString 0%nat creatingProfileCall ALICE)).
  pose (b2 := nth 1 (submissions jobId) b1).
  pose (b3 := nth 2 (submissions jobId) b1).
  pose (b4 := nth 3 (submissions jobId) b1).
  (* creatingProfileTx, signed by Alice *)
  apply wp_bind, wp_trigger. cbn [handle extrinsics with_node record initial List.length].
  match goal with |- wp _ ?w _ _ => remember w as w0 eqn:E0 end.
  assert (L0 : log w0 = preamble (Fulfilled jobId)) by (subst w0; reflexivity).
  assert (X0 : map call (extrinsics w0) = [creatingProfileCall]) by (subst w0; reflexivity).
  clear E0.
  apply wp_bind.
  eapply wp_weaken; [apply (wp_signAndSend_in_block _ _ _ creatingProfileCall); now rewrite X0 | |].
  2:{ intros o w' (d & Hd & Hl). rewrite Hl, L0.
      exact (submitting (one_stops b1 _ Hd)). }
  intros _ w1 (d1 & H1 & L1 & X1). rewrite L0 in L1. rewrite X0 in X1.
  (* the same object, signed by Bob *)
  apply wp_bind.
  eapply wp_weaken; [apply (wp_signAndSend_in_block _ _ _ creatingProfileCall); now rewrite X1 | |].
  2:{ intros o w' (d & Hd & Hl). rewrite Hl, L1, <- app_assoc.
      exact (submitting (one_included b1 H1 (one_stops b2 _ Hd))). }
  intros _ w2 (d2 & H2 & L2 & X2). rewrite L1 in L2. rewrite X1 in X2.
  (* submittingJobTx *)
  apply wp_bind, wp_trigger. cbn [handle]. rewrite (length_extrinsics _ _ X2).
  apply wp_bind.
  eapply wp_weaken; [apply (wp_signAndSend_in_block _ _ _ submittingJobCall) | |].
  { cbn [extrinsics with_extrinsics]. rewrite map_app, X2. reflexivity. }
  2:{ intros o w' (d & Hd & Hl). rewrite Hl. cbn [log with_extrinsics]. rewrite L2, <- !app_assoc.
      exact (submitting (one_included b1 H1 (one_included b2 H2 (one_stops b3 _ Hd)))). }
  intros _ w3 (d3 & H3 & L3 & X3). cbn [log extrinsics with_extrinsics] in L3, X3.
  rewrite L2 in L3. rewrite map_app, X2 in X3. cbn [map app call] in X3.
  (* the two assertions *)
  do 2 (apply wp_bind, wp_trigger; cbn [handle]).
  (* submittingJobResultTx *)
  apply wp_bind, wp_trigger. cbn [handle].
  rewrite !extrinsics_assert, (length_extrinsics _ _ X3).
  apply wp_bind.
  eapply wp_weaken; [apply (wp_signAndSend_in_block _ _ _ (submittingJobResultCall jobId)) | |].
  { cbn [extrinsics with_extrinsics]. rewrite map_app, X3. reflexivity. }
  2:{ intros o w' (d & Hd & Hl). rewrite Hl. cbn [log with_extrinsics].
      rewrite !log_assert, <- (app_assoc (log w3)).
      change (assertion _ _ ++ assertion _ _) with assertions.
      rewrite L3, <- !app_assoc.
      exact (submitting (one_included b1 H1 (one_included b2 H2 (one_included b3 H3
               (one_stops b4 _ Hd))))). }
  intros _ w4 (d4 & H4 & L4 & _). cbn [log with_extrinsics] in L4.
  rewrite !log_assert, <- (app_assoc (log w3)) in L4.
  change (assertion _ _ ++ assertion _ _) with assertions in L4.
  rewrite L3, <- !app_assoc in L4.
  apply wp_trigger. cbn [handle]. rewrite L4.
  replace d4 with (d4 ++ []) by apply app_nil_r.
  exact (submitting (one_included b1 H1 (one_included b2 H2 (one_included b3 H3
           (one_included b4 H4 all_included))))).
Qed.

End Running.

(** ** Every run of the script ends *)

Lemma halted_for_good (N : Node) R (t : itree scriptE R) (w : World N) fuel o w' :
  run fuel t w = Halted o w' ->
  forall fuel', (fuel <= fuel')%nat -> run fuel' t w = Halted o w'.
Proof.
  intros E fuel' L.
  pose proof (run_more N R fuel t w (fuel' - fuel)) as M. rewrite E in M.
  now replace (fuel + (fuel' - fuel))%nat with fuel' in M by lia.
Qed.

Lemma wp_ends_in (N : Node) (s : node_state N) (H : Outcome -> World N -> Prop) :
  wp script (initial s) (fun _ _ => False) H ->
  exists o w, ends_in s o w /\ H o w.
Proof.
  intros [fuel Hf].
  destruct (run fuel script (initial s)) as [[] | o w |] eqn:E; [| contradiction].
  exists o, w. split; [|exact Hf]. exists fuel. now apply halted_for_good.
Qed.

Lemma ends_in_unique (N : Node) (s : node_state N) o1 o2 (w1 w2 : World N) :
  ends_in s o1 w1 -> ends_in s o2 w2 -> o1 = o2 /\ w1 = w2.
Proof.
  intros [f1 H1] [f2 H2].
  specialize (H1 (Nat.max f1 f2) (Nat.le_max_l _ _)).
  specialize (H2 (Nat.max f1 f2) (Nat.le_max_r _ _)).
  rewrite H1 in H2. now injection H2.
Qed.

Lemma script_ends (N : Node) (s : node_state N) :
  exists o w, ends_in s o w /\ Behaviour o (log w).
Proof. apply wp_ends_in, script_behaviour. Qed.


(** ** The shape of the logs *)

Lemma inclusion_lines_of_callback label r :
  Forall (of_callback label) (inclusion_lines label r ++ [Unsubscribed]).
Proof.
  unfold inclusion_lines. rewrite Forall_app. split; [|repeat constructor].
  constructor; [reflexivity|]. constructor; [exact I|].
  rewrite Forall_map. apply Forall_forall. intros ev _. exact I.
Qed.

Lemma awaiting_of_callback label l : Awaiting l -> Forall (of_callback label) l.
Proof. induction 1; constructor; [exact I | assumption]. Qed.

Lemma included_of_callback label l : Included label l -> Forall (of_callback label) l.
Proof.
  induction 1; constructor; try exact I; try assumption.
  apply inclusion_lines_of_callback.
Qed.

Lemma flat_map_nil {A B} (f : A -> list B) (P : A -> Prop) l :
  Forall P l -> (forall a, P a -> f a = []) -> flat_map f l = [].
Proof.
  intros HP Hf. induction HP as [|a l Ha _ IH]; cbn; [reflexivity|].
  now rewrite (Hf a Ha), IH.
Qed.

(** A submission that ended the flow, and one after which it goes on. *)
Lemma submitted_stops label tx c account o d :
  Submitted label tx c account (Some o) d ->
  exists p l, d = Submit tx c account p :: l /\ Forall (of_callback label) l /\
    ((exists e, p = RejectedWith e /\ o = Unhandled e /\ l = []) \/
     (p = NeverSettles /\ o = Suspended /\ l = []) \/
     (p = Fulfilled tt /\ o = Suspended /\ Awaiting l)).
Proof.
  inversion 1; subst; do 2 eexists; (split; [reflexivity|]).
  - split; [constructor|]. left. now exists e.
  - split; [constructor|]. right. left. auto.
  - split; [now apply awaiting_of_callback|]. right. right. auto.
Qed.

Lemma submitted_goes_on label tx c account d :
  Submitted label tx c account None d ->
  exists l, d = Submit tx c account (Fulfilled tt) :: l /\ Included label l.
Proof. inversion 1; subst. now eexists. Qed.

(** The ways the four submissions of the script can go. *)
Local Abbreviation S1 := (Submitted "[creatingProfileTx]" 0%nat creatingProfileCall ALICE).
Local Abbreviation S2 := (Submitted "[creatingProfileTx]" 0%nat creatingProfileCall BOB).
Local Abbreviation S3 := (Submitted "[submittingJobTx]" 1%nat submittingJobCall ALICE).
Local Abbreviation S4 j := (Submitted "[submittingJobResultTx]" 2%nat (submittingJobResultCall j) ALICE).


(** ** One transaction at a time *)

Lemma orderly_nil n : (n <= 1)%nat -> orderly n [].
Proof.
  intros L l1 l2 E. symmetry in E. apply app_eq_nil in E as [-> ->].
  split; [exact L | discriminate].
Qed.

Lemma orderly_cons n a l :
  (n <= 1)%nat ->
  (forall tx c account reply, a = Submit tx c account reply -> n = 0%nat) ->
  orderly (flight n a) l ->
  orderly n (a :: l).
Proof.
  intros L Ha Hl [|x l1] l2 E; cbn in E.
  - subst l2. split; [exact L|]. intros tx c account reply l3 [= -> _].
    cbn. now apply (Ha tx c account reply).
  - injection E as <- E. cbn. now apply Hl.
Qed.

Lemma orderly_inv n a l :
  orderly n (a :: l) ->
  (n <= 1)%nat /\
  (forall tx c account reply, a = Submit tx c account reply -> n = 0%nat) /\
  orderly (flight n a) l.
Proof.
  intros H. destruct (H [] (a :: l) eq_refl) as [L S]. split; [exact L|]. split.
  - intros tx c account reply ->. now apply (S tx c account reply l).
  - intros l1 l2 ->. apply (H (a :: l1) l2). reflexivity.
Qed.

Lemma orderly_app l : forall n l',
  orderly n l -> orderly (fold_left flight l n) l' -> orderly n (l ++ l').
Proof.
  induction l as [|a l IH]; intros n l' Hl Hl'; [exact Hl'|].
  apply orderly_inv in Hl as (L & S & Hl). cbn.
  apply orderly_cons; [exact L | exact S | now apply IH].
Qed.

Lemma idle_flight n a : idle a -> flight n a = n.
Proof. destruct a as [| | | ? ? ? ?|r| | |]; cbn; try easy. now intros ->. Qed.

Lemma orderly_idle l : forall n,
  Forall idle l -> (n <= 1)%nat -> orderly n l /\ fold_left flight l n = n.
Proof.
  induction l as [|a l IH]; intros n Hl L.
  - split; [now apply orderly_nil | reflexivity].
  - inversion Hl as [|? ? Ha Hl']; subst. cbn. rewrite (idle_flight n a Ha).
    destruct (IH n Hl' L) as [O F]. split; [|exact F].
    apply orderly_cons; [exact L | | now rewrite (idle_flight n a Ha)].
    intros tx c account reply ->. destruct Ha.
Qed.

Lemma awaiting_idle l : Awaiting l -> Forall idle l.
Proof. induction 1; constructor; assumption. Qed.

Lemma inclusion_lines_idle label r : Forall idle (inclusion_lines label r ++ [Unsubscribed]).
Proof.
  unfold inclusion_lines. rewrite Forall_app. split; [|repeat constructor].
  do 2 (constructor; [exact I|]). rewrite Forall_map. apply Forall_forall. now intros.
Qed.

Lemma included_orderly label l :
  Included label l -> orderly 1 l /\ fold_left flight l 1%nat = 0%nat.
Proof.
  induction 1 as [r Hr | r l Hr _ [O F]]; cbn; rewrite Hr; cbn.
  - destruct (orderly_idle _ 0%nat (inclusion_lines_idle label r) (Nat.le_0_l 1)) as [O F].
    split; [|exact F]. apply orderly_cons; [lia | discriminate | cbn; now rewrite Hr].
  - split; [|exact F]. apply orderly_cons; [lia | discriminate | cbn; now rewrite Hr].
Qed.

Lemma submitted_orderly label tx c account oo l :
  Submitted label tx c account oo l ->
  orderly 0 l /\
  match oo with
  | None => fold_left flight l 0%nat = 0%nat
  | Some o => fold_left flight l 0%nat = 0%nat \/ o = Suspended
  end.
Proof.
  inversion 1 as [e | | l' A | l' I]; subst.
  - split; [|now left].
    apply orderly_cons; [lia | reflexivity | apply orderly_nil; cbn; lia].
  - split; [|now right].
    apply orderly_cons; [lia | reflexivity | apply orderly_nil; cbn; lia].
  - split; [|now right]. apply orderly_cons; [lia | reflexivity |].
    apply (orderly_idle l' 1%nat); [now apply awaiting_idle | lia].
  - destruct (included_orderly label l' I) as [O F]. split; [|exact F].
    apply orderly_cons; [lia | reflexivity | exact O].
Qed.

(** The submissions of a plan, one after the other: orderly, and at the
    end nothing is in flight unless the flow is suspended. *)
Lemma submissions_orderly plan o l :
  Submissions plan o l ->
  Forall (fun b => Forall idle (sub_before b)) plan ->
  orderly 0 l /\ (fold_left flight l 0%nat = 0%nat \/ o = Suspended).
Proof.
  induction 1 as [| b rest o l H | b rest o l l' H _ IH]; intros Hp.
  - split; [apply orderly_nil; lia | now left].
  - inversion Hp as [|? ? Hb _]; subst.
    destruct (orderly_idle _ 0%nat Hb (Nat.le_0_l 1)) as [Ob Fb].
    destruct (submitted_orderly _ _ _ _ _ _ H) as [O F].
    split; [apply orderly_app; [exact Ob | now rewrite Fb] |].
    rewrite fold_left_app, Fb. exact F.
  - inversion Hp as [|? ? Hb Hrest]; subst.
    destruct (orderly_idle _ 0%nat Hb (Nat.le_0_l 1)) as [Ob Fb].
    destruct (submitted_orderly _ _ _ _ _ _ H) as [O F].
    destruct (IH Hrest) as [O' F'].
    split.
    + apply orderly_app; [exact Ob | rewrite Fb].
      apply orderly_app; [exact O | now rewrite F].
    + now rewrite !fold_left_app, Fb, F.
Qed.

Lemma preamble_idle p : Forall idle (preamble p).
Proof. repeat constructor. Qed.

Lemma assertions_idle : Forall idle assertions.
Proof.
  unfold assertions, assertion. apply Forall_app.
  split; match goal with |- context [if ?c then _ else _] => destruct c end;
    repeat constructor.
Qed.

Lemma plan_idle jobId : Forall (fun b => Forall idle (sub_before b)) (submissions jobId).
Proof. repeat constructor. apply assertions_idle. Qed.

Lemma behaviour_orderly o l :
  Behaviour o l -> orderly 0 l /\ (in_flight l = 0%nat \/ o = Suspended).
Proof.
  unfold in_flight.
  inversion 1 as [p ? _ | p ? _ | p ? _ | jobId ? l' Hs]; subst.
  - destruct (orderly_idle [Connect endpoint p] 0%nat) as [O F];
      [repeat constructor | lia | auto].
  - destruct (orderly_idle [Connect endpoint (Fulfilled tt); AwaitReady p] 0%nat) as [O F];
      [repeat constructor | lia | auto].
  - destruct (orderly_idle _ 0%nat (preamble_idle p) (Nat.le_0_l 1)) as [O F]. auto.
  - destruct (orderly_idle _ 0%nat (preamble_idle (Fulfilled jobId)) (Nat.le_0_l 1)) as [O F].
    destruct (submissions_orderly _ _ _ Hs (plan_idle jobId)) as [O' F'].
    split; [apply orderly_app; [exact O | now rewrite F] |].
    now rewrite fold_left_app, F.
Qed.

(** ** The submissions of a run *)

Lemma submitted_app l l' : submitted (l ++ l') = submitted l ++ submitted l'.
Proof. apply flat_map_app. Qed.

Lemma submitted_idle l : Forall idle l -> submitted l = [].
Proof. intros H. apply (flat_map_nil _ idle l H). now intros []. Qed.

Lemma submitted_of_callback label l : Forall (of_callback label) l -> submitted l = [].
Proof. intros H. apply (flat_map_nil _ (of_callback label) l H). now intros []. Qed.

Lemma submitted_once label tx c account oo l :
  Submitted label tx c account oo l -> submitted l = [(tx, c, account)].
Proof.
  inversion 1 as [e | | l' A | l' I]; subst; try reflexivity.
  - change (submitted (Submit tx c account (Fulfilled tt) :: l'))
      with ((tx, c, account) :: submitted l').
    now rewrite (submitted_idle l' (awaiting_idle l' A)).
  - change (submitted (Submit tx c account (Fulfilled tt) :: l'))
      with ((tx, c, account) :: submitted l').
    now rewrite (submitted_of_callback label l' (included_of_callback label l' I)).
Qed.

Lemma submitted_in_order plan o l :
  Submissions plan o l ->
  Forall (fun b => Forall idle (sub_before b)) plan ->
  exists n, submitted l = firstn n (map (fun b => (sub_tx b, sub_call b, sub_account b)) plan).
Proof.
  induction 1 as [| b rest o l H | b rest o l l' H _ IH]; intros Hp.
  - now exists 0%nat.
  - inversion Hp as [|? ? Hb _]; subst. exists 1%nat.
    now rewrite submitted_app, (submitted_idle _ Hb), (submitted_once _ _ _ _ _ _ H).
  - inversion Hp as [|? ? Hb Hrest]; subst. destruct (IH Hrest) as [n Hn]. exists (S n).
    now rewrite !submitted_app, (submitted_idle _ Hb), (submitted_once _ _ _ _ _ _ H), Hn.
Qed.

(** The submissions of a run are the first of the four the script plans,
    in their order, with the job identifier it has read. *)
Lemma behaviour_submitted o l :
  Behaviour o l ->
  submitted l = [] \/
  exists jobId l' n, l = preamble (Fulfilled jobId) ++ l' /\ submitted l = firstn n (planned jobId).
Proof.
  inversion 1 as [p ? _ | p ? _ | p ? _ | jobId ? l' Hs]; subst;
    [left; reflexivity | left; reflexivity | left; apply submitted_idle, preamble_idle |].
  right. destruct (submitted_in_order _ _ _ Hs (plan_idle jobId)) as [n Hn].
  exists jobId, l', n. split; [reflexivity|].
  now rewrite submitted_app, (submitted_idle _ (preamble_idle _)), Hn.
Qed.

(** C3. Submissions are strictly sequential: the script submits at most four
    transactions, and at whatever point its log is cut, the part before the
    cut leaves at most one transaction in flight, and none when what comes
    next is a submission: a submission begins only after the inclusion of
    the one before it was notified. *)
Theorem submissions_are_sequential (N : Node) (s : node_state N) :
  exists o w, ends_in s o w /\
    (List.length (submitted (log w)) <= 4)%nat /\
    forall l1 l2, log w = l1 ++ l2 ->
      (in_flight l1 <= 1)%nat /\
      (forall tx c account reply l3,
          l2 = Submit tx c account reply :: l3 -> in_flight l1 = 0%nat).
Proof.
  destruct (script_ends N s) as (o & w & E & B).
  exists o, w. split; [exact E|]. split.
  - destruct (behaviour_submitted o (log w) B) as [-> | (jobId & l' & n & _ & ->)].
    + cbn. lia.
    + rewrite length_firstn. change (List.length (planned jobId)) with 4%nat. lia.
  - exact (proj1 (behaviour_orderly o (log w) B)).
Qed.

(** ** Bytes, arrays and the signatures *)



Lemma length_Array_from (b : Uint8Array) : List.length (Array_from b) = List.length b.
Proof. apply length_map. Qed.


(** In general the array ends up as long as it was, or just long enough to
    hold the index. *)
Lemma length_array_set i : forall (a : JsArray) x,
  List.length (array_set a i x) = Nat.max (List.length a) (S i).
Proof.
  induction i as [|i IH]; intros [|y a] x; cbn [array_set List.length];
    rewrite ?IH; cbn [List.length]; lia.
Qed.

(** X3. The length check of the script holds for an array of at most 65
    numbers (the assignment overwrites the last of 65), and for no longer
    one. *)
Theorem assertion_holds_up_to_65_numbers (a : JsArray) x :
  List.length (array_set a 64 x) = 65%nat <-> (List.length a <= 65)%nat.
Proof.
  rewrite length_array_set.
  destruct (Nat.max_spec (List.length a) 65) as [[L ->] | [L ->]]; split; lia.
Qed.


(** The three hard-coded private keys are valid ones. *)
Lemma seeds_are_private :
  isPrivate ALICE_ROLE_SEED = true /\ isPrivate BOB_ROLE_SEED = true /\
  isPrivate dkgPrivateKey = true.
Proof. repeat split; vm_compute; reflexivity. Qed.

(** ** What the submissions carry *)

Lemma In_submitted l tx c account reply :
  In (Submit tx c account reply) l -> In (tx, c, account) (submitted l).
Proof.
  intros H. apply in_flat_map. exists (Submit tx c account reply).
  split; [exact H | now left].
Qed.

Lemma In_firstn {A} (x : A) n : forall l, In x (firstn n l) -> In x l.
Proof.
  induction n as [|n IH]; intros [|y l]; cbn; try easy.
  intros [-> | H]; [now left | right; now apply IH].
Qed.

(** Whatever a run submits is one of the four planned submissions. *)
Lemma submitted_planned o l x :
  Behaviour o l -> In x (submitted l) ->
  exists jobId l', l = preamble (Fulfilled jobId) ++ l' /\ In x (planned jobId).
Proof.
  intros B Hx.
  destruct (behaviour_submitted o l B) as [E | (jobId & l' & n & El & E)];
    rewrite E in Hx; [destruct Hx|].
  exists jobId, l'. split; [exact El | now apply In_firstn in Hx].
Qed.



(** ** What the console shows *)

(** An observation of the log that sees neither requests nor what the
    status callbacks leave. *)
Lemma unobserved_submission {B} (f : Action -> list B) label tx c account oo d :
  (forall tx c account p, f (Submit tx c account p) = []) ->
  (forall a, of_callback label a -> f a = []) ->
  Submitted label tx c account oo d ->
  flat_map f d = [].
Proof.
  intros Hs Hc H. assert (exists p l, d = Submit tx c account p :: l /\ Forall (of_callback label) l)
    as (p & l & -> & Hl).
  { destruct oo as [o|].
    - destruct (submitted_stops _ _ _ _ _ _ H) as (p & l & E & Hl & _). now exists p, l.
    - destruct (submitted_goes_on _ _ _ _ _ H) as (l & E & Hl). exists (Fulfilled tt), l.
      split; [exact E | now apply included_of_callback]. }
  cbn. rewrite Hs. exact (flat_map_nil f _ l Hl Hc).
Qed.

Lemma observed_submissions {B} (f : Action -> list B) plan o l :
  (forall tx c account p, f (Submit tx c account p) = []) ->
  (forall b a, In b plan -> of_callback (sub_label b) a -> f a = []) ->
  Submissions plan o l ->
  exists n, flat_map f l = flat_map (fun b => flat_map f (sub_before b)) (firstn n plan).
Proof.
  intros Hs Hc H. induction H as [| b rest o l H | b rest o l l' H _ IH].
  - now exists 0%nat.
  - exists 1%nat. rewrite flat_map_app. cbn.
    now rewrite (unobserved_submission f _ _ _ _ _ _ Hs (fun a => Hc b a (or_introl eq_refl)) H).
  - destruct IH as [n Hn]; [intros b' a Hb'; apply Hc; now right|].
    exists (S n). rewrite !flat_map_app. cbn. f_equal.
    rewrite (unobserved_submission f _ _ _ _ _ _ Hs (fun a => Hc b a (or_introl eq_refl)) H).
    exact Hn.
Qed.

Lemma observed_behaviour {B} (f : Action -> list B) o l :
  (forall a, reply_of a <> None -> f a = []) ->
  (forall label a,
      In label ["[creatingProfileTx]"; "[submittingJobTx]"; "[submittingJobResultTx]"]%string ->
      of_callback label a -> f a = []) ->
  Behaviour o l ->
  flat_map f l = [] \/
  flat_map f l = flat_map f keys_printed \/
  flat_map f l = flat_map f keys_printed ++ flat_map f assertions.
Proof.
  intros Hr Hc.
  assert (Hp : forall p, flat_map f (preamble p) = flat_map f keys_printed).
  { intros p. unfold preamble. rewrite !flat_map_app. cbn [flat_map app].
    rewrite (Hr (Connect _ _)), (Hr (AwaitReady _)), (Hr (ReadNextJobId _)) by discriminate.
    now rewrite !app_nil_r. }
  inversion 1 as [p ? _ | p ? _ | p ? _ | jobId ? l' Hs]; subst.
  - left. cbn [flat_map app]. now rewrite (Hr (Connect _ _)) by discriminate.
  - left. cbn [flat_map app].
    now rewrite (Hr (Connect _ _)), (Hr (AwaitReady _)) by discriminate.
  - right; left. apply Hp.
  - assert (Hc' : forall b a, In b (submissions jobId) -> of_callback (sub_label b) a -> f a = []).
    { intros b a Hb. apply Hc.
      destruct Hb as [<- | [<- | [<- | [<- | []]]]]; cbn; auto. }
    destruct (observed_submissions f _ _ _
                (fun tx c a p => Hr (Submit tx c a p) ltac:(discriminate)) Hc' Hs) as [n Hn].
    rewrite flat_map_app, Hp, Hn.
    destruct n as [|[|[|[|n]]]];
      cbn [submissions firstn flat_map sub_before app];
      rewrite ?firstn_nil; cbn [flat_map]; rewrite ?app_nil_r; auto.
Qed.


(** ** The signatures *)

Section Signatures.

Hypothesis keccak_length : forall b, List.length (keccak256AsU8a b) = 32%nat.
Hypothesis sign_length : forall d o h r,
  isPrivate d = true -> List.length h = 32%nat ->
  List.length (sign (fromPrivateKey d o) h r) = 64%nat.

Lemma length_signature1 : List.length signature1 = 64%nat.
Proof.
  apply sign_length; [exact (proj1 seeds_are_private) | apply keccak_length].
Qed.

Lemma length_signature2 : List.length signature2 = 64%nat.
Proof.
  apply sign_length; [exact (proj1 (proj2 seeds_are_private)) | apply keccak_length].
Qed.


Lemma length_signature1Array : List.length signature1Array = 65%nat.
Proof.
  unfold signature1Array. now rewrite length_array_set, length_Array_from, length_signature1.
Qed.

Lemma length_signature2Array : List.length signature2Array = 65%nat.
Proof.
  unfold signature2Array. now rewrite length_array_set, length_Array_from, length_signature2.
Qed.

Lemma assertions_hold : assertions = [].
Proof.
  unfold assertions. now rewrite length_signature1Array, length_signature2Array.
Qed.

(** C5. With a signing function that returns 64 bytes (and a hash of 32),
    writing the recovery byte at index 64 makes each of the two arrays 65
    long, so that no run prints an assertion failure. *)
Theorem signatures_are_65_bytes_long (N : Node) (s : node_state N) :
  List.length signature1 = 64%nat /\ List.length signature2 = 64%nat /\
  List.length signature1Array = 65%nat /\ List.length signature2Array = 65%nat /\
  exists o w, ends_in s o w /\ failed_assertions (log w) = [].
Proof.
  split; [apply length_signature1|]. split; [apply length_signature2|].
  split; [apply length_signature1Array|]. split; [apply length_signature2Array|].
  destruct (script_ends N s) as (o & w & E & B).
  exists o, w. split; [exact E|].
  destruct (observed_behaviour
              (fun a => match a with AssertionFailed m => [m] | _ => [] end) o (log w))
    as [H | [H | H]]; try exact B; try exact H.
  - now intros [].
  - now intros label [].
  - rewrite assertions_hold in H. exact H.
Qed.


End Signatures.

(** ** The keys *)




Section PublicKeys.

(** The encodings [tiny-secp256k1] gives a point: 65 bytes led by 0x04 when
    uncompressed, 33 bytes when compressed, which is the default. *)
Hypothesis publicKey_uncompressed : forall d,
  isPrivate d = true ->
  exists xy, publicKey (fromPrivateKey d (Some {| compressed := Some false |})) = x04 :: xy
             /\ List.length xy = 64%nat.
Hypothesis publicKey_compressed : forall d,
  isPrivate d = true -> List.length (publicKey (fromPrivateKey d None)) = 33%nat.



End PublicKeys.

(** ** Where the flow stops *)

Lemma inclusions_app l l' : inclusions (l ++ l') = inclusions l ++ inclusions l'.
Proof. apply flat_map_app. Qed.

Lemma inclusions_idle l : Forall idle l -> inclusions l = [].
Proof.
  intros H. apply (flat_map_nil _ idle l H).
  intros [| | | | r | | |]; cbn; try reflexivity. now intros ->.
Qed.

(** A wait that saw an inclusion ends with it and with what the callback
    prints then. *)
Lemma included_ends label l :
  Included label l ->
  exists l0 r,
    l = l0 ++ Notified r :: inclusion_lines label r ++ [Unsubscribed] /\
    isInBlock (status r) = true /\ Forall idle l0.
Proof.
  induction 1 as [r Hr | r l Hr _ (l0 & r' & -> & Hr' & Hl0)].
  - now exists [], r.
  - exists (Notified r :: l0), r'. split; [reflexivity|]. split; [exact Hr'|].
    now constructor.
Qed.

Lemma inclusions_included label l :
  Included label l -> List.length (inclusions l) = 1%nat.
Proof.
  intros H. destruct (included_ends label l H) as (l0 & r & -> & Hr & Hl0).
  rewrite inclusions_app, (inclusions_idle l0 Hl0).
  change (inclusions (Notified r :: inclusion_lines label r ++ [Unsubscribed]))
    with ((if isInBlock (status r) then [r] else [])
          ++ inclusions (inclusion_lines label r ++ [Unsubscribed])).
  now rewrite Hr, (inclusions_idle _ (inclusion_lines_idle label r)).
Qed.

Lemma inclusions_submitted label tx c account oo d :
  Submitted label tx c account oo d ->
  match oo with
  | None => List.length (inclusions d) = 1%nat
  | Some o => inclusions d = [] /\ forall code, o <> Exited code
  end.
Proof.
  inversion 1 as [e | | l' A | l' I]; subst.
  - now split.
  - now split.
  - split; [|discriminate].
    change (inclusions (Submit tx c account (Fulfilled tt) :: l')) with (inclusions l').
    apply inclusions_idle, awaiting_idle, A.
  - change (inclusions (Submit tx c account (Fulfilled tt) :: l')) with (inclusions l').
    now apply (inclusions_included label).
Qed.


(** What comes before a submission begins with whatever idle actions the
    log begins with. *)
Lemma idle_prefix (P : list Action) : forall l' l1 l2 tx c account reply,
  Forall idle P ->
  P ++ l' = l1 ++ Submit tx c account reply :: l2 ->
  exists l0, l1 = P ++ l0.
Proof.
  induction P as [|x P IH]; intros l' l1 l2 tx c account reply HP E.
  - now exists l1.
  - inversion HP as [|? ? Hx HP']; subst. destruct l1 as [|y l1]; cbn in E.
    + injection E as -> _. destruct Hx.
    + injection E as <- E. destruct (IH _ _ _ _ _ _ _ HP' E) as [l0 ->]. now exists l0.
Qed.

Lemma inclusions_preamble p : inclusions (preamble p) = [].
Proof. apply inclusions_idle, preamble_idle. Qed.



(** ** Failures *)













(** ** The job identifier *)

Lemma submitted_after label tx c account d (l : list Action) :
  Submitted label tx c account None d ->
  submitted (l ++ d) = submitted l ++ [(tx, c, account)].
Proof. intros H. now rewrite submitted_app, (submitted_once _ _ _ _ _ _ H). Qed.

Lemma submitted_assert (cond : bool) message (w : World LocalChain) :
  submitted (log (if cond then w else record (AssertionFailed message) w)) = submitted (log w).
Proof.
  destruct cond; [reflexivity|]. cbn [log record].
  now rewrite submitted_app, app_nil_r.
Qed.

Lemma node_assert (cond : bool) message (w : World LocalChain) :
  node (if cond then w else record (AssertionFailed message) w) = node w.
Proof. now destruct cond. Qed.

(** Against the local chain the script runs to its exit. *)
Lemma script_on_the_local_chain (ch : Chain) :
  wp script (initial (N := LocalChain) ch) (fun _ _ => False)
    (fun o w => o = Exited 0 /\ node w = after_the_script ch /\
                submitted (log w) = planned (nextJobId ch)).
Proof.
  unfold script.
  apply wp_bind, wp_await.
  cbn [handle LocalChain node_connect settle node with_node record initial].
  apply wp_bind, wp_await.
  cbn [handle LocalChain node_ready settle node with_node record initial].
  do 4 (apply wp_bind, wp_trigger; cbn [handle]).
  apply wp_bind, wp_await.
  cbn [handle LocalChain node_nextJobId settle node with_node record initial].
  apply wp_bind, wp_trigger. cbn [handle extrinsics with_node record List.length].
  match goal with |- wp _ ?w _ _ => remember w as w0 eqn:E0 end.
  assert (S0 : submitted (log w0) = []) by (subst w0; reflexivity).
  assert (N0 : node w0 = ch) by (subst w0; reflexivity).
  assert (X0 : map call (extrinsics w0) = [creatingProfileCall]) by (subst w0; reflexivity).
  clear E0.
  (* the two profiles *)
  apply wp_bind.
  eapply wp_weaken;
    [eapply (wp_signAndSend_included _ _ _ _ creatingProfileCall);
       [now rewrite X0 | reflexivity | reflexivity] | | now intros].
  intros _ w1 (N1 & X1 & d1 & H1 & L1). cbn beta.
  rewrite N0 in N1. rewrite X0 in X1.
  assert (S1 : submitted (log w1) = [(0%nat, creatingProfileCall, ALICE)])
    by (rewrite L1, (submitted_after _ _ _ _ _ _ H1), S0; reflexivity).
  clear d1 H1 L1.
  apply wp_bind.
  eapply wp_weaken;
    [eapply (wp_signAndSend_included _ _ _ _ creatingProfileCall);
       [now rewrite X1 | reflexivity | reflexivity] | | now intros].
  intros _ w2 (N2 & X2 & d2 & H2 & L2). cbn beta.
  rewrite N1 in N2. rewrite X1 in X2.
  assert (S2 : submitted (log w2)
               = [(0%nat, creatingProfileCall, ALICE); (0%nat, creatingProfileCall, BOB)])
    by (rewrite L2, (submitted_after _ _ _ _ _ _ H2), S1; reflexivity).
  clear d2 H2 L2.
  (* the job *)
  apply wp_bind, wp_trigger. cbn [handle]. rewrite (length_extrinsics _ _ _ X2).
  apply wp_bind.
  eapply wp_weaken;
    [eapply (wp_signAndSend_included _ _ _ _ submittingJobCall);
       [cbn [extrinsics with_extrinsics]; now rewrite map_app, X2 | reflexivity | reflexivity]
    | | now intros].
  intros _ w3 (N3 & X3 & d3 & H3 & L3). cbn beta.
  cbn [node log extrinsics with_extrinsics] in N3, X3, L3.
  rewrite N2 in N3. rewrite map_app, X2 in X3. cbn [map app call] in X3.
  assert (S3 : submitted (log w3)
               = [(0%nat, creatingProfileCall, ALICE); (0%nat, creatingProfileCall, BOB);
                  (1%nat, submittingJobCall, ALICE)])
    by (rewrite L3, (submitted_after _ _ _ _ _ _ H3), S2; reflexivity).
  clear d3 H3 L3.
  (* the assertions and the result *)
  do 2 (apply wp_bind, wp_trigger; cbn [handle]).
  apply wp_bind, wp_trigger. cbn [handle].
  rewrite !extrinsics_assert, (length_extrinsics _ _ _ X3).
  cbn [node with_node record initial].
  apply wp_bind.
  eapply wp_weaken;
    [eapply (wp_signAndSend_included _ _ _ _ (submittingJobResultCall (nextJobId ch)));
       [cbn [extrinsics with_extrinsics]; now rewrite map_app, X3 | reflexivity | reflexivity]
    | | now intros].
  intros _ w4 (N4 & _ & d4 & H4 & L4). cbn beta.
  cbn [node log with_extrinsics] in N4, L4. rewrite !node_assert, N3 in N4.
  apply wp_trigger. cbn [handle].
  split; [reflexivity|]. split; [exact N4|].
  rewrite L4, (submitted_after _ _ _ _ _ _ H4), !submitted_assert, S3. reflexivity.
Qed.

(** C2. The identifier a job result names is the one the script read from
    the chain before it submitted anything.  On the local chain, where the
    script is the only client, that is the identifier the chain gives the
    job the script submits: the job is registered, and its result recorded,
    under the value the counter had when the script started. *)
Theorem job_result_names_the_identifier_read_first :
  (forall (N : Node) (s : node_state N),
      exists o w, ends_in s o w /\
        forall l1 tx role jobId r account reply l2,
          log w = l1 ++ Submit tx (jobs_submitJobResult role jobId r) account reply :: l2 ->
          exists la lb,
            l1 = la ++ ReadNextJobId (Fulfilled jobId) :: lb /\ submitted la = [])
  /\
  (forall ch : Chain,
      exists w job r,
        ends_in (N := LocalChain) ch (Exited 0) w /\
        In (1%nat, jobs_submitJob job, ALICE) (submitted (log w)) /\
        In (2%nat, jobs_submitJobResult (Tss DfnsCGGMP21Secp256k1) (nextJobId ch) r, ALICE)
           (submitted (log w)) /\
        jobs (node w) = jobs ch ++ [(nextJobId ch, job)] /\
        results (node w) = results ch ++ [(nextJobId ch, r)] /\
        nextJobId (node w) = nextJobId ch + 1).
Proof.
  split.
  - intros N s. destruct (script_ends N s) as (o & w & E & B).
    exists o, w. split; [exact E|].
    intros l1 tx role jobId r account reply l2 El.
    assert (Hin : In (tx, jobs_submitJobResult role jobId r, account) (submitted (log w))).
    { apply (In_submitted _ _ _ _ reply). rewrite El. apply in_elt. }
    destruct (submitted_planned o (log w) _ B Hin) as (j & l' & Ej & Hp).
    assert (j = jobId) as ->.
    { destruct Hp as [Hp | [Hp | [Hp | [Hp | []]]]]; try discriminate Hp.
      now inversion Hp. }
    rewrite Ej in El.
    destruct (idle_prefix _ _ _ _ _ _ _ _ (preamble_idle (Fulfilled jobId)) El) as [l0 ->].
    exists ([Connect endpoint (Fulfilled tt); AwaitReady (Fulfilled tt)] ++ keys_printed), l0.
    split; [|reflexivity]. unfold preamble. now rewrite <- !app_assoc.
  - intros ch.
    destruct (wp_ends_in LocalChain ch _ (script_on_the_local_chain ch))
      as (o & w & E & -> & Hn & Hs).
    exists w.
    exists {| expiry := 100; ttl := 100;
              jobType := DkgtssPhaseOne
                {| DkgtssPhaseOne.participants := [address ALICE; address BOB];
                   DkgtssPhaseOne.threshold := 1;
                   DkgtssPhaseOne.permittedCaller := None;
                   DkgtssPhaseOne.roleType := DfnsCGGMP21Secp256k1 |} |}.
    exists (DKGPhaseOne
              {| DKGPhaseOne.key := u8aToHex dkgPublicKey;
                 DKGPhaseOne.signatures :=
                   [u8aToHex (Uint8Array_from signature1Array);
                    u8aToHex (Uint8Array_from signature2Array)];
                 DKGPhaseOne.threshold := 1;
                 DKGPhaseOne.signatureScheme := Ecdsa |}).
    split; [exact E|]. rewrite Hs, Hn.
    split; [right; right; left; reflexivity|].
    split; [right; right; right; left; reflexivity|].
    repeat split; reflexivity.
Qed.

(** * More of the code *)

(** ** Hex strings and buffers (lines 41-53, 147, 174-175) *)

Lemma decode_digits_cons (b : byte) (rest : Uint8Array) :
  Hex.decode (Hex.digits (b :: rest)) = b :: Hex.decode (Hex.digits rest).
Proof. destruct b; reflexivity. Qed.

Lemma decode_digits (b : Uint8Array) : Hex.decode (Hex.digits b) = b.
Proof. induction b as [|x b IH]; [reflexivity|]. now rewrite decode_digits_cons, IH. Qed.

Lemma canonical_digits_cons (b : byte) (rest : Uint8Array) :
  Hex.canonical (Hex.digits (b :: rest)) = Hex.canonical (Hex.digits rest).
Proof. destruct b; reflexivity. Qed.

Lemma canonical_digits (b : Uint8Array) : Hex.canonical (Hex.digits b) = true.
Proof. induction b as [|x b IH]; [reflexivity|]. now rewrite canonical_digits_cons. Qed.

Lemma lower_digit (a : ascii) :
  Hex.lower a = true ->
  exists h, Hex.digit a = Some h /\ (h < 16)%N /\ Hex.of_nibble h = a.
Proof.
  intros Ha.
  destruct a as [[] [] [] [] [] [] [] []]; try discriminate Ha;
    eexists; (split; [reflexivity|]); split; reflexivity.
Qed.

Lemma to_N_byte_of_N (n : N) : (n < 256)%N -> Byte.to_N (Hex.byte_of_N n) = n.
Proof.
  intros L. unfold Hex.byte_of_N. rewrite N.mod_small by exact L.
  destruct (Byte.of_N n) as [b|] eqn:E.
  - now apply Byte.to_of_N.
  - apply Byte.of_N_None_iff in E. lia.
Qed.

Lemma digits_decode_pair (a b : ascii) (rest : string) :
  Hex.lower a = true -> Hex.lower b = true ->
  Hex.digits (Hex.decode (String a (String b rest)))
  = String a (String b (Hex.digits (Hex.decode rest))).
Proof.
  intros Ha Hb.
  destruct (lower_digit a Ha) as (h & Dh & Lh & Nh).
  destruct (lower_digit b Hb) as (l & Dl & Ll & Nl).
  cbn [Hex.decode]. rewrite Dh, Dl. cbn [Hex.digits].
  rewrite to_N_byte_of_N by lia.
  replace ((16 * h + l) / 16)%N with h by (apply (N.div_unique _ 16 h l); lia).
  replace ((16 * h + l) mod 16)%N with l by (apply (N.mod_unique _ 16 h l); lia).
  now rewrite Nh, Nl.
Qed.

Lemma digits_decode : forall s : string,
  Hex.canonical s = true -> Hex.digits (Hex.decode s) = s.
Proof.
  fix IH 1. intros [|a [|b rest]] H; [reflexivity | discriminate |].
  cbn [Hex.canonical] in H. apply andb_prop in H as [H Hr]. apply andb_prop in H as [Ha Hb].
  rewrite (digits_decode_pair a b rest Ha Hb). now rewrite (IH rest Hr).
Qed.

Lemma length_digits (b : Uint8Array) : String.length (Hex.digits b) = (2 * List.length b)%nat.
Proof. induction b as [|x b IH]; cbn [Hex.digits String.length List.length]; lia. Qed.

(** X4. A hex string that is decoded to a buffer as at line 41 and printed
    as at line 46 comes back with the prefix 0x, digit for digit, exactly
    when it is made of lower-case hexadecimal digits, two a byte; of any
    other string the print is not what was written. *)
Theorem printed_hex_is_the_literal (s : string) :
  u8aToHex (new_Uint8Array (Buffer_from_hex s)) = ("0x" ++ s)%string
  <-> Hex.canonical s = true.
Proof.
  unfold u8aToHex, new_Uint8Array, Buffer_from_hex. split.
  - intros E. injection E as E. rewrite <- E. apply canonical_digits.
  - intros H. now rewrite digits_decode.
Qed.

(** X5. The hex string sent for a buffer holds its bytes: two digits a byte
    after the prefix, from which the bytes are decoded back, so that two
    buffers with the same string are the same.  The prefix is not part of
    the digits: decoding the prefixed string gives the empty buffer. *)
Theorem hex_holds_the_bytes (b : Uint8Array) :
  Buffer_from_hex (Hex.digits b) = b /\
  String.length (u8aToHex b) = (2 + 2 * List.length b)%nat /\
  (forall b', u8aToHex b = u8aToHex b' -> b = b') /\
  Buffer_from_hex (u8aToHex b) = [].
Proof.
  split; [apply decode_digits|]. split; [|split].
  - unfold u8aToHex. cbn [String.append String.length]. now rewrite length_digits.
  - intros b' E. unfold u8aToHex in E. injection E as E.
    now rewrite <- (decode_digits b), E, decode_digits.
  - reflexivity.
Qed.

(** ** The array of a signature (lines 160-163, 175) *)



(** ** The wait for an inclusion (lines 76-91) *)

Lemma wp_forEach_exact (N : Node) (l : list EventRecord) :
  forall (w : World N) (Q : unit -> World N -> Prop) H,
  Q tt {| node := node w; extrinsics := extrinsics w; subscription := subscription w;
          log := log w ++ map (fun ev => Print [event_line ev]) l |} ->
  wp (forEach l (fun ev => ITree.trigger (console_log [event_line ev]))) w Q H.
Proof.
  induction l as [|ev l IH]; intros w Q H HQ; cbn [forEach].
  - apply wp_ret. cbn [map] in HQ. rewrite app_nil_r in HQ. now destruct w.
  - apply wp_bind, wp_trigger. cbn [handle]. apply IH.
    cbn [record node extrinsics subscription log]. now rewrite <- app_assoc.
Qed.

Lemma wp_callback_exact (N : Node) label r (w : World N)
  (Q : unit + unit -> World N -> Prop) H :
  (if isInBlock (status r)
   then Q (inr tt) {| node := node w; extrinsics := extrinsics w; subscription := [];
                      log := log w ++ inclusion_lines label r ++ [Unsubscribed] |}
   else Q (inl tt) w) ->
  wp (callback label r) w Q H.
Proof.
  intros HQ. unfold callback. destruct (isInBlock (status r)); [|now apply wp_ret].
  apply wp_bind, wp_trigger. cbn [handle].
  apply wp_bind, wp_trigger. cbn [handle].
  apply wp_bind, wp_forEach_exact.
  apply wp_bind, wp_trigger. cbn [handle].
  apply wp_ret. unfold record, with_subscription.
  cbn [node extrinsics subscription log].
  unfold inclusion_lines in HQ. rewrite <- !app_assoc. exact HQ.
Qed.

Lemma wp_wait_exact (N : Node) label (l : list SubmittableResult) : forall w : World N,
  subscription w = l ->
  wp (wait_for_inclusion label) w
    (fun _ w' =>
       exists l1 r l2,
         l = l1 ++ r :: l2 /\
         Forall (fun r' => isInBlock (status r') = false) l1 /\
         isInBlock (status r) = true /\
         w' = {| node := node w; extrinsics := extrinsics w; subscription := [];
                 log := log w ++ map Notified l1
                        ++ Notified r :: inclusion_lines label r ++ [Unsubscribed] |})
    (fun o w' =>
       o = Suspended /\
       Forall (fun r' => isInBlock (status r') = false) l /\
       w' = {| node := node w; extrinsics := extrinsics w; subscription := [];
               log := log w ++ map Notified l |}).
Proof.
  induction l as [|r l IH]; intros w Hs.
  - eapply wp_observe; [apply (observing_observe (unfold_aloop_ _ _))|].
    apply wp_bind, wp_bind, wp_trigger. unfold handle. rewrite Hs.
    split; [reflexivity|]. split; [constructor|].
    cbn [map]. rewrite app_nil_r. destruct w; cbn in *. now subst.
  - eapply wp_observe; [apply (observing_observe (unfold_aloop_ _ _))|].
    apply wp_bind, wp_bind, wp_trigger. unfold handle. rewrite Hs.
    apply wp_callback_exact. destruct (isInBlock (status r)) eqn:Hin.
    + apply wp_ret. exists [], r, l. split; [reflexivity|]. split; [constructor|].
      split; [exact Hin|]. unfold record, with_subscription; cbn [node extrinsics subscription log map app].
      now rewrite <- app_assoc.
    + apply wp_tau.
      eapply wp_weaken; [apply IH; reflexivity | |].
      * intros _ w' (l1 & r' & l2 & El & Hl1 & Hr' & ->).
        exists (r :: l1), r', l2. split; [now rewrite El|]. split; [now constructor|].
        split; [exact Hr'|].
        unfold record, with_subscription; cbn [node extrinsics subscription log map app].
        now rewrite <- app_assoc.
      * intros o w' (Ho & Hl & ->). split; [exact Ho|]. split; [now constructor|].
        unfold record, with_subscription; cbn [node extrinsics subscription log map app].
        now rewrite <- app_assoc.
Qed.


(** ** The run against a node, request by request *)

Lemma awaiting_notified (l : list SubmittableResult) :
  Forall (fun r => isInBlock (status r) = false) l -> Awaiting (map Notified l).
Proof. induction 1; cbn [map]; now constructor. Qed.

Lemma included_notified label (l1 : list SubmittableResult) r :
  Forall (fun r' => isInBlock (status r') = false) l1 ->
  isInBlock (status r) = true ->
  Included label (map Notified l1 ++ Notified r :: inclusion_lines label r ++ [Unsubscribed]).
Proof. induction 1; intros Hr; cbn [map app]; constructor; auto. Qed.

Lemma included_none (l : list SubmittableResult) :
  Forall (fun r => isInBlock (status r) = false) l -> included l = false.
Proof.
  unfold included. induction 1 as [|r l Hr _ IH]; [reflexivity|].
  cbn [existsb]. now rewrite Hr, IH.
Qed.

Lemma included_some (l1 : list SubmittableResult) r l2 :
  isInBlock (status r) = true -> included (l1 ++ r :: l2) = true.
Proof.
  intros Hr. unfold included. rewrite existsb_app. cbn [existsb].
  rewrite Hr. apply orb_true_r.
Qed.

(** One submission, with the answer of the node that decides how it ends. *)
Lemma wp_submission_exact (N : Node) label tx account x (w : World N) :
  nth_error (extrinsics w) tx = Some x ->
  wp (signAndSend_in_block label tx account) w
    (fun _ w' =>
       exists l d,
         node_submit N (call x) account (node w) = (Fulfilled l, node w') /\
         included l = true /\
         Submitted label tx (call x) account None d /\ log w' = log w ++ d /\
         extrinsics w'
         = update (extrinsics w) tx {| call := call x; signer := Some account |})
    (fun o w' =>
       exists p d,
         node_submit N (call x) account (node w) = (p, node w') /\
         stopped p = Some o /\
         Submitted label tx (call x) account (Some o) d /\ log w' = log w ++ d /\
         extrinsics w'
         = update (extrinsics w) tx {| call := call x; signer := Some account |}).
Proof.
  intros Hx. unfold signAndSend_in_block. apply wp_bind, wp_await.
  unfold handle. rewrite Hx.
  destruct (node_submit N (call x) account (node w)) as [[l | e |] s']; cbn [subscribed].
  - eapply wp_weaken; [apply (wp_wait_exact N label l); reflexivity | |].
    + intros _ w' (l1 & r & l2 & El & Hl1 & Hr & ->).
      exists l, (Submit tx (call x) account (Fulfilled tt)
                 :: map Notified l1 ++ Notified r :: inclusion_lines label r ++ [Unsubscribed]).
      unfold with_subscription, with_node, record, with_extrinsics.
      cbn [node extrinsics subscription log].
      split; [reflexivity|]. split; [rewrite El; now apply included_some|].
      split; [apply submitted_included; now apply included_notified|].
      split; [now rewrite <- app_assoc | reflexivity].
    + intros o w' (-> & Hl & ->).
      exists (Fulfilled l), (Submit tx (call x) account (Fulfilled tt) :: map Notified l).
      unfold with_subscription, with_node, record, with_extrinsics.
      cbn [node extrinsics subscription log].
      split; [reflexivity|]. split; [cbn [stopped]; now rewrite included_none|].
      split; [apply submitted_awaiting; now apply awaiting_notified|].
      split; [now rewrite <- app_assoc | reflexivity].
  - exists (RejectedWith e), [Submit tx (call x) account (RejectedWith e)].
    repeat split. apply submitted_rejected.
  - exists NeverSettles, [Submit tx (call x) account NeverSettles].
    repeat split. apply submitted_unanswered.
Qed.

Lemma submitted_then label tx c account oo d (l : list Action) :
  Submitted label tx c account oo d ->
  submitted (l ++ d) = submitted l ++ [(tx, c, account)].
Proof. intros H. now rewrite submitted_app, (submitted_once _ _ _ _ _ _ H). Qed.

Lemma submitted_assertion (N : Node) (cond : bool) message (w : World N) :
  submitted (log (if cond then w else record (AssertionFailed message) w)) = submitted (log w).
Proof.
  destruct cond; [reflexivity|]. cbn [log record].
  now rewrite submitted_app, app_nil_r.
Qed.

Lemma node_assertion (N : Node) (cond : bool) message (w : World N) :
  node (if cond then w else record (AssertionFailed message) w) = node w.
Proof. now destruct cond. Qed.

(** The script against any node: the outcome, the state the node is left
    in and the submissions made are those of [summary], and the objects it
    holds those of [objects]. *)
Lemma script_summary (N : Node) (s : node_state N) :
  wp script (initial s) (fun (_ : void) _ => False)
    (fun o w =>
       exists j,
         summary s = (o, node w, submitted (log w)) /\
         submitted (log w) = firstn (List.length (submitted (log w))) (planned j) /\
         extrinsics w = objects (List.length (submitted (log w))) j).
Proof.
  unfold script, summary, endpoint.
  apply wp_bind, wp_await. unfold handle at 1. cbn [node initial].
  destruct (node_connect N _ s) as [[[] | e |] s1]; cbn [settle ended];
    [| now exists 0 | now exists 0].
  apply wp_bind, wp_await. unfold handle at 1. cbn [node with_node].
  destruct (node_ready N s1) as [[[] | e |] s2]; cbn [settle ended];
    [| now exists 0 | now exists 0].
  do 4 (apply wp_bind, wp_trigger; cbn [handle]).
  apply wp_bind, wp_await. unfold handle at 1. cbn [node with_node record].
  destruct (node_nextJobId N s2) as [[jobId | e |] s3]; cbn [settle];
    [| now exists 0 | now exists 0].
  cbn [submit_all submissions sub_call sub_account].
  (* creatingProfileTx, signed by Alice *)
  apply wp_bind, wp_trigger. cbn [handle extrinsics with_node record initial List.length].
  match goal with |- wp _ ?w _ _ => remember w as w0 eqn:E0 end.
  assert (S0 : submitted (log w0) = []) by (subst w0; reflexivity).
  assert (N0 : node w0 = s3) by (subst w0; reflexivity).
  assert (X0 : extrinsics w0 = [ {| call := creatingProfileCall; signer := None |} ])
    by (subst w0; reflexivity).
  clear E0.
  apply wp_bind.
  eapply wp_weaken;
    [apply (wp_submission_exact N _ 0%nat ALICE {| call := creatingProfileCall; signer := None |});
     now rewrite X0 | |]; cbn [call].
  2:{ intros o w' (p & d & Hn & Hs & Hd & Hl & Hx). exists jobId.
      rewrite N0 in Hn. rewrite Hn, Hs, Hl, (submitted_then _ _ _ _ _ _ _ Hd), S0, Hx, X0.
      repeat split. }
  intros _ w1 (l1 & d1 & Hn1 & Hi1 & Hd1 & Hl1 & X1).
  rewrite N0 in Hn1. rewrite Hn1. cbn [stopped]. rewrite Hi1.
  assert (S1 : submitted (log w1) = [(0%nat, creatingProfileCall, ALICE)])
    by (rewrite Hl1, (submitted_then _ _ _ _ _ _ _ Hd1), S0; reflexivity).
  rewrite X0 in X1. cbn [update] in X1.
  clear w0 S0 N0 X0 d1 Hd1 Hl1 Hn1 Hi1 l1.
  (* the same object, signed by Bob *)
  apply wp_bind.
  eapply wp_weaken;
    [apply (wp_submission_exact N _ 0%nat BOB
              {| call := creatingProfileCall; signer := Some ALICE |});
     now rewrite X1 | |]; cbn [call].
  2:{ intros o w' (p & d & Hn & Hs & Hd & Hl & Hx). exists jobId.
      rewrite Hn, Hs, Hl, (submitted_then _ _ _ _ _ _ _ Hd), S1, Hx, X1.
      repeat split. }
  intros _ w2 (l2 & d2 & Hn2 & Hi2 & Hd2 & Hl2 & X2).
  rewrite Hn2. cbn [stopped]. rewrite Hi2.
  assert (S2 : submitted (log w2)
               = [(0%nat, creatingProfileCall, ALICE); (0%nat, creatingProfileCall, BOB)])
    by (rewrite Hl2, (submitted_then _ _ _ _ _ _ _ Hd2), S1; reflexivity).
  rewrite X1 in X2. cbn [update] in X2.
  clear w1 S1 X1 d2 Hd2 Hl2 Hn2 Hi2 l2.
  (* submittingJobTx *)
  apply wp_bind, wp_trigger. cbn [handle]. rewrite X2. cbn [List.length app].
  apply wp_bind.
  eapply wp_weaken;
    [apply (wp_submission_exact N _ 1%nat ALICE {| call := submittingJobCall; signer := None |});
     cbn [extrinsics with_extrinsics]; reflexivity | |];
    cbn [call node log extrinsics with_extrinsics].
  2:{ intros o w' (p & d & Hn & Hs & Hd & Hl & Hx). exists jobId.
      rewrite Hn, Hs, Hl, (submitted_then _ _ _ _ _ _ _ Hd), S2, Hx.
      repeat split. }
  intros _ w3 (l3 & d3 & Hn3 & Hi3 & Hd3 & Hl3 & X3).
  rewrite Hn3. cbn [stopped]. rewrite Hi3.
  assert (S3 : submitted (log w3)
               = [(0%nat, creatingProfileCall, ALICE); (0%nat, creatingProfileCall, BOB);
                  (1%nat, submittingJobCall, ALICE)])
    by (rewrite Hl3, (submitted_then _ _ _ _ _ _ _ Hd3), S2; reflexivity).
  cbn [update] in X3.
  clear w2 S2 X2 d3 Hd3 Hl3 Hn3 Hi3 l3.
  (* the two assertions *)
  do 2 (apply wp_bind, wp_trigger; cbn [handle]).
  (* submittingJobResultTx *)
  apply wp_bind, wp_trigger. cbn [handle].
  rewrite !extrinsics_assert, X3. cbn [List.length app].
  apply wp_bind.
  eapply wp_weaken;
    [apply (wp_submission_exact N _ 2%nat ALICE
              {| call := submittingJobResultCall jobId; signer := None |});
     cbn [extrinsics with_extrinsics]; reflexivity | |];
    cbn [call node log extrinsics with_extrinsics]; rewrite !node_assertion.
  2:{ intros o w' (p & d & Hn & Hs & Hd & Hl & Hx). exists jobId.
      rewrite Hn, Hs, Hl, (submitted_then _ _ _ _ _ _ _ Hd), !submitted_assertion, S3, Hx.
      repeat split. }
  intros _ w4 (l4 & d4 & Hn4 & Hi4 & Hd4 & Hl4 & X4).
  rewrite Hn4. cbn [stopped]. rewrite Hi4.
  apply wp_trigger. cbn [handle]. exists jobId.
  rewrite Hl4, (submitted_then _ _ _ _ _ _ _ Hd4), !submitted_assertion, S3, X4.
  repeat split.
Qed.

Lemma script_summed (N : Node) (s : node_state N) :
  exists o w j,
    ends_in s o w /\ Behaviour o (log w) /\
    summary s = (o, node w, submitted (log w)) /\
    submitted (log w) = firstn (List.length (submitted (log w))) (planned j) /\
    extrinsics w = objects (List.length (submitted (log w))) j.
Proof.
  destruct (wp_ends_in N s _ (script_summary N s)) as (o & w & E & j & Hs & Hp & Hx).
  destruct (script_ends N s) as (o' & w' & E' & B).
  destruct (ends_in_unique N s o o' w w' E E') as [<- <-].
  now exists o, w, j.
Qed.

(** X8. What a run asks of the node is the connection, the readiness, the
    next job identifier and the four submissions, each once and in that
    order, up to the first request that does not go through: a rejected or
    unanswered request, or a submission with no inclusion among its
    notifications.  The outcome of the run, the state the node is left in
    and the submissions made are those of that sequence. *)
Theorem requests_are_made_in_order (N : Node) (s : node_state N) :
  exists o w, ends_in s o w /\ summary s = (o, node w, submitted (log w)).
Proof.
  destruct (script_summed N s) as (o & w & j & E & _ & Hs & _).
  now exists o, w.
Qed.


(** ** The events are not read *)

Lemma included_rewritten g (l : list SubmittableResult) :
  included (map (rewritten g) l) = included l.
Proof.
  unfold included. induction l as [|r l IH]; [reflexivity|].
  cbn [map existsb rewritten status]. now rewrite IH.
Qed.

Lemma submit_all_with_events g (N : Node) (plan : list Submission) :
  forall s : node_state N,
    submit_all (N := with_events g N) plan s = submit_all (N := N) plan s.
Proof.
  induction plan as [|b plan IH]; intros s; [reflexivity|].
  cbn [submit_all with_events node_submit].
  destruct (node_submit N (sub_call b) (sub_account b) s) as [[l | e |] s']; cbn [stopped];
    [| reflexivity | reflexivity].
  rewrite included_rewritten. destruct (included l); [|reflexivity].
  now rewrite (IH s').
Qed.

Lemma summary_with_events g (N : Node) (s : node_state N) :
  summary (N := with_events g N) s = summary (N := N) s.
Proof.
  unfold summary. cbn [with_events node_connect node_ready node_nextJobId].
  destruct (node_connect N endpoint s) as [p1 s1]. destruct (ended p1); [reflexivity|].
  destruct (node_ready N s1) as [p2 s2]. destruct (ended p2); [reflexivity|].
  destruct (node_nextJobId N s2) as [[j | e |] s3]; try reflexivity.
  apply submit_all_with_events.
Qed.

(** X2. The script prints the events of a block and does not read them:
    against a node that reports the same statuses and any other events, or
    none, the run ends the same way, having made the same submissions and
    left the node in the same state. *)
Theorem events_are_only_printed
  (g : option (list EventRecord) -> option (list EventRecord))
  (N : Node) (s : node_state N) :
  exists o w w',
    ends_in (N := N) s o w /\ ends_in (N := with_events g N) s o w' /\
    node w' = node w /\ submitted (log w') = submitted (log w) /\
    extrinsics w' = extrinsics w.
Proof.
  destruct (script_summed N s) as (o & w & j & E & _ & Hs & Hp & Hx).
  destruct (script_summed (with_events g N) s) as (o' & w' & j' & E' & _ & Hs' & Hp' & Hx').
  rewrite summary_with_events, Hs in Hs'. injection Hs' as <- Hn Hsub.
  exists o, w, w'. split; [exact E|]. split; [exact E'|].
  split; [now symmetry|]. split; [now symmetry|].
  rewrite Hx, Hx', <- Hsub.
  destruct (List.length (submitted (log w))) as [|[|[|[|n]]]] eqn:L; try reflexivity.
  assert (J : nth_error (submitted (log w)) 3 = nth_error (submitted (log w')) 3)
    by now rewrite Hsub.
  rewrite Hp in J at 1. rewrite Hp' in J. rewrite <- Hsub, L in J.
  cbn in J. injection J as J. cbn [objects]. now rewrite J.
Qed.

(** ** A node that answers everything *)



(** ** What the console shows, line by line *)











(** ** The assertions *)







(** ** The subscriptions *)

Lemma unsubscriptions_app l l' :
  unsubscriptions (l ++ l') = (unsubscriptions l + unsubscriptions l')%nat.
Proof. unfold unsubscriptions. now rewrite flat_map_app, length_app. Qed.

Lemma unsubscriptions_idle_lines label r : unsubscriptions (inclusion_lines label r) = 0%nat.
Proof.
  unfold unsubscriptions, inclusion_lines. cbn [flat_map app].
  induction (events_or_empty r) as [|ev l IH]; [reflexivity | exact IH].
Qed.

Lemma included_unsubscribes label l : Included label l -> unsubscriptions l = 1%nat.
Proof.
  induction 1 as [r Hr | r l Hr _ IH]; [|exact IH].
  change (unsubscriptions (Notified r :: inclusion_lines label r ++ [Unsubscribed]))
    with (unsubscriptions (inclusion_lines label r ++ [Unsubscribed])).
  now rewrite unsubscriptions_app, unsubscriptions_idle_lines.
Qed.

Lemma awaiting_keeps_subscribed l : Awaiting l -> unsubscriptions l = 0%nat.
Proof. induction 1; [reflexivity | assumption]. Qed.

Lemma submitted_unsubscribes label tx c account oo d :
  Submitted label tx c account oo d ->
  unsubscriptions d = List.length (inclusions d).
Proof.
  intros H. pose proof (inclusions_submitted _ _ _ _ _ _ H) as HI.
  inversion H as [e | | l' A | l' I]; subst; cbn beta iota in HI.
  - reflexivity.
  - reflexivity.
  - rewrite (proj1 HI). exact (awaiting_keeps_subscribed l' A).
  - rewrite HI. exact (included_unsubscribes label l' I).
Qed.

Lemma submissions_unsubscribe plan o l :
  Submissions plan o l ->
  Forall (fun b => Forall idle (sub_before b) /\ unsubscriptions (sub_before b) = 0%nat) plan ->
  unsubscriptions l = List.length (inclusions l).
Proof.
  induction 1 as [| b rest o l H | b rest o l l' H _ IH]; intros Hp.
  - reflexivity.
  - inversion Hp as [|? ? [Hb Hb'] _]; subst.
    rewrite unsubscriptions_app, inclusions_app, Hb', (inclusions_idle _ Hb).
    exact (submitted_unsubscribes _ _ _ _ _ _ H).
  - inversion Hp as [|? ? [Hb Hb'] Hrest]; subst.
    rewrite !unsubscriptions_app, !inclusions_app, !length_app, Hb', (inclusions_idle _ Hb),
      (submitted_unsubscribes _ _ _ _ _ _ H), (IH Hrest).
    reflexivity.
Qed.

Lemma unsubscriptions_assertions : unsubscriptions assertions = 0%nat.
Proof.
  unfold assertions, assertion.
  now destruct (List.length signature1Array =? 65)%nat,
               (List.length signature2Array =? 65)%nat.
Qed.

(** X13. A run calls [unsub] once for each inclusion it has seen and never
    otherwise; a transaction is left in flight, its subscription open,
    only by a run that ends suspended, and by none that exits. *)
Theorem every_inclusion_unsubscribes (N : Node) (s : node_state N) :
  exists o w,
    ends_in s o w /\
    unsubscriptions (log w) = List.length (inclusions (log w)) /\
    (in_flight (log w) = 0%nat \/ o = Suspended).
Proof.
  destruct (script_ends N s) as (o & w & E & B).
  exists o, w. split; [exact E|]. split; [|exact (proj2 (behaviour_orderly o (log w) B))].
  destruct B as [p o _ | p o _ | p o _ | jobId o l' Hs]; try reflexivity.
  rewrite unsubscriptions_app, inclusions_app, inclusions_preamble.
  change (unsubscriptions (preamble (Fulfilled jobId))) with 0%nat.
  apply (submissions_unsubscribe _ _ _ Hs).
  repeat constructor; cbn [sub_before]; try reflexivity.
  - apply assertions_idle.
  - apply unsubscriptions_assertions.
Qed.

End Properties.

(** * The script at work *)

Import Demo.

Lemma demo_keccak_length : forall b, List.length (keccak256AsU8a b) = 32%nat.
Proof.
  intros b. unfold keccak256AsU8a, keccak.
  rewrite length_firstn, length_app, repeat_length. lia.
Qed.

Lemma private_key_length d : isPrivate d = true -> List.length d = 32%nat.
Proof.
  unfold isPrivate. intros H. apply andb_prop in H as [H _]. apply andb_prop in H as [H _].
  now apply Nat.eqb_eq.
Qed.

Lemma demo_sign_length : forall d o h r,
  isPrivate d = true -> List.length h = 32%nat ->
  List.length (sign (fromPrivateKey d o) h r) = 64%nat.
Proof.
  intros d o h r Hd Hh. cbn. rewrite length_app, Hh, (private_key_length d Hd). reflexivity.
Qed.



(** Four inclusions: the script exits with 0, having submitted what it
    plans with the identifier 7, and nothing is left in flight. *)
Example four_inclusions_exit :
  match run 100 script
          (initial (N := answering)
             [in_block [success]; in_block [success]; in_block [success]; in_block [success]])
  with
  | Halted (Exited 0) w =>
      submitted (log w) = planned 7 /\ in_flight (log w) = 0%nat /\
      List.length (inclusions (log w)) = 4%nat /\ failed_assertions (log w) = []
  | _ => False
  end.
Proof. vm_compute. repeat split. Qed.

(** The events of a block are printed and not read: a transaction whose
    dispatch failed on the chain does not stop the script. *)
Example failed_dispatch_goes_unnoticed :
  match run 100 script
          (initial (N := answering)
             [in_block [failure]; in_block [failure]; in_block [failure]; in_block [failure]])
  with
  | Halted (Exited 0) w => shown "[creatingProfileTx] Included at block hash" (log w)
                           = ["0x0abc"; "0x0abc"]%string
  | _ => False
  end.
Proof. vm_compute. reflexivity. Qed.

(** The node rejects the second submission: the rejection is unhandled and
    the third submission never happens. *)
Example rejection_is_unhandled :
  match run 100 script
          (initial (N := answering)
             [in_block [success]; RejectedWith "1010: Invalid Transaction"; in_block [success]])
  with
  | Halted (Unhandled e) w =>
      e = "1010: Invalid Transaction"%string /\ List.length (submitted (log w)) = 2%nat
  | _ => False
  end.
Proof. vm_compute. split; reflexivity. Qed.

(** The first transaction is never seen in a block: the flow is suspended,
    with however much fuel. *)
Example no_inclusion_suspends :
  run 50 script (initial (N := answering) [dropped])
  = run 5000 script (initial (N := answering) [dropped])
  /\ match run 50 script (initial (N := answering) [dropped]) with
     | Halted Suspended w => in_flight (log w) = 1%nat
     | _ => False
     end.
Proof. vm_compute. split; reflexivity. Qed.

(** A signing function that returns 70 bytes: both assertions fail, and
    the script goes on to its exit. *)
Example a_failed_assertion_stops_nothing :
  match run 100 (script (ECPair := wordy)) (initial (N := obliging) tt) with
  | Halted (Exited 0) w =>
      failed_assertions (log w)
      = ["Signature 1 length is invalid"; "Signature 2 length is invalid"]%string /\
      List.length (submitted (log w)) = 4%nat
  | _ => False
  end.
Proof. vm_compute. split; reflexivity. Qed.

(** The seed of line 41 is printed as it is written, after the prefix. *)
Example a_seed_is_printed_as_written :
  u8aToHex ALICE_ROLE_SEED
  = "0xcb6df9de1efca7a3998a8ead4e02159d5fa99c3e0d4fd6432667390bb4726854"%string.
Proof. reflexivity. Qed.

(** The theorems that rest on the contracts of the libraries, at the
    stand-ins, which keep those contracts. *)


Lemma signatures_are_65_bytes_long_at_work :
  (forall b, List.length (keccak256AsU8a b) = 32%nat) /\
  (forall d o h r,
      isPrivate d = true -> List.length h = 32%nat ->
      List.length (sign (fromPrivateKey d o) h r) = 64%nat) /\
  List.length signature1 = 64%nat /\ List.length signature2 = 64%nat /\
  List.length signature1Array = 65%nat /\ List.length signature2Array = 65%nat /\
  exists o w,
    ends_in (N := answering)
      [in_block [success]; in_block [success]; in_block [success]; in_block [success]] o w /\
    failed_assertions (log w) = [].
Proof.
  split; [exact demo_keccak_length|]. split; [exact demo_sign_length|].
  exact (signatures_are_65_bytes_long demo_keccak_length demo_sign_length answering
           [in_block [success]; in_block [success]; in_block [success]; in_block [success]]).
Defined.


